(** * Export-name registry and project converter

    A shallow embedding of [src/es6-module-utils.ts] and of the
    [ProjectConverter] class that follows it in the same source file, with
    the properties the specification states about them.

    Layout: the JavaScript runtime fragment the code relies on ([Js]), the
    export-name registry, the export collector over the Babel syntax tree,
    the project converter, a small project for the examples, the
    default-export test, the reservation pass, a small manifest for the
    examples and the vocabulary of the properties; then the properties of
    the specification, and after them further properties of the code. *)

From Stdlib Require Import NArith Ascii String DecimalString DecimalN DecimalFacts Lia.
From stdpp Require Import gmap strings list fin_maps.

(* ===================================================================== *)
(** ** The JavaScript runtime fragment used by the source *)
(* ===================================================================== *)

(** Strings are sequences of code units.  The model keeps the code units
    below 256 ([ascii]); none of the regular expressions of the source has
    the [u] flag, so they work code unit by code unit. *)

Module Js.

(** [!v] for [v : string | undefined]: [undefined] and the empty string are
    falsy.  [truthy v] is [Some s] exactly when [v] is a non-empty string. *)
Definition truthy (v : option string) : option string :=
  match v with
  | Some "" => None
  | _ => v
  end.

Definition is_digit (c : ascii) : bool :=
  (Ascii.leb "0" c && Ascii.leb c "9")%char.

Definition is_lower (c : ascii) : bool :=
  (Ascii.leb "a" c && Ascii.leb c "z")%char.

Definition is_upper (c : ascii) : bool :=
  (Ascii.leb "A" c && Ascii.leb c "Z")%char.

Fixpoint all_chars (p : ascii -> bool) (s : string) : bool :=
  match s with
  | EmptyString => true
  | String c s' => p c && all_chars p s'
  end.

Fixpoint map_chars (f : ascii -> ascii) (s : string) : string :=
  match s with
  | EmptyString => EmptyString
  | String c s' => String (f c) (map_chars f s')
  end.

(** *** Numbers

    The only numbers the source computes are [parseInt(v)] for a run of
    decimal digits [v], and that number plus one.  They are IEEE 754
    doubles: a non-negative integer that a double represents, [+Infinity]
    once the magnitude leaves the double range, or [NaN]. *)
Inductive number :=
| NaN
| Fin (n : N)
| Infinity.

(** Round a non-negative integer to the nearest double, ties to even.
    Integers below [2^53] are doubles; above, a double keeps the 53 leading
    bits. *)
Definition round_to_double (y : N) : number :=
  if (y <? 2 ^ 53)%N then Fin y
  else
    let e := (N.log2 y - 52)%N in
    let q := (y / 2 ^ e)%N in
    let r := (y mod 2 ^ e)%N in
    let h := (2 ^ (e - 1))%N in
    let q' := if (r <? h)%N then q
              else if (h <? r)%N then (q + 1)%N
              else if N.even q then q else (q + 1)%N in
    if (q' * 2 ^ e <? 2 ^ 1024)%N then Fin (q' * 2 ^ e)%N else Infinity.

(** [x + 1] *)
Definition add_one (x : number) : number :=
  match x with
  | Fin n => round_to_double (n + 1)
  | _ => x
  end.

Definition decimal (n : N) : string :=
  NilEmpty.string_of_uint (N.to_uint n).

(** [parseInt(v)], for the only way the source calls it: on the text that
    [/[0-9]+$/] matched, a non-empty run of decimal digits.  The value is
    rounded to a double.  (The language lets an implementation replace the
    digits after the 20th by zeros first; the model rounds the exact value,
    as V8 does.) *)
Definition parseInt (v : string) : number :=
  match v with
  | EmptyString => NaN
  | _ => match NilEmpty.uint_of_string v with
         | Some d => round_to_double (N.of_uint d)
         | None => NaN
         end
  end.

(** [Number::toString] picks the decimal with the fewest significant digits
    that still reads back as the same double, and the closest one among
    those.  [represents v y]: the integer [y] rounds to the double [v]. *)
Definition represents (v y : N) : bool :=
  match round_to_double y with
  | Fin v' => (v' =? v)%N
  | _ => false
  end.

(** The two multiples of [10^e] around [v], the closer one first (on a tie
    the one with the even digit string). *)
Definition candidates (v e : N) : list N :=
  let p := (10 ^ e)%N in
  let lo := (v / p * p)%N in
  let hi := (lo + p)%N in
  if (v - lo <? hi - v)%N then [lo; hi]
  else if (hi - v <? v - lo)%N then [hi; lo]
  else if N.even (v / p) then [lo; hi] else [hi; lo].

(** Try ever more digits: [e] trailing zeros first, then [e - 1], ... *)
Fixpoint shortest (v : N) (e : nat) : N :=
  match List.find (represents v) (candidates v (N.of_nat e)) with
  | Some y => y
  | None => match e with
            | O => v
            | S e' => shortest v e'
            end
  end.

Fixpoint strip_trailing_zeros (s : string) : string :=
  match s with
  | EmptyString => EmptyString
  | String c s' =>
      match strip_trailing_zeros s' with
      | EmptyString => if Ascii.eqb c "0" then EmptyString else String c EmptyString
      | t => String c t
      end
  end.

(** [`${x}`]: plain digits while the value has at most 21 digits (it is
    below [10^21]), the exponent form from [1e21] on. *)
Definition number_to_string (x : number) : string :=
  match x with
  | NaN => "NaN"
  | Infinity => "Infinity"
  | Fin 0 => "0"
  | Fin v =>
      let y := shortest v (String.length (decimal v) - 1) in
      let s := decimal y in
      let n := String.length s in
      if (y <? 10 ^ 21)%N then s
      else
        match strip_trailing_zeros s with
        | EmptyString => s
        | String d EmptyString =>
            String d ("e+" +:+ decimal (N.of_nat (n - 1)))
        | String d ds =>
            String d ("." +:+ ds +:+ "e+" +:+ decimal (N.of_nat (n - 1)))
        end
  end.

(** [GetSubstitution] for a replacement string, as [String.prototype.replace]
    applies it when the pattern has no capture group and matched the whole
    subject ([/^default$/], [/^\*$/]): the text before and after the match is
    empty, and [$1] ... [$9] stay as they are. *)
Fixpoint getSubstitution (matched replacement : string) : string :=
  match replacement with
  | EmptyString => EmptyString
  | String "$" (String "$" r) => String "$" (getSubstitution matched r)
  | String "$" (String "&" r) => matched +:+ getSubstitution matched r
  | String "$" (String "`" r) => getSubstitution matched r
  | String "$" (String "'" r) => getSubstitution matched r
  | String c r => String c (getSubstitution matched r)
  end.

(** [s.replace(/^pat$/, replacement)] for a literal [pat]. *)
Definition replace_whole (pat replacement s : string) : string :=
  if String.eqb s pat then getSubstitution pat replacement else s.

End Js.

(* ===================================================================== *)
(** ** The export-name registry ([getOrSetBundleModuleExportName]) *)
(* ===================================================================== *)

(** [bundle.bundle.bundledExports]: for each module of the bundle, the names
    assigned to its exports.  It is the only part of the bundle the registry
    reads or writes.  No code of the registry depends on the iteration order
    of either map. *)
Abbreviation ModuleExports := (gmap string string).
Abbreviation BundledExports := (gmap string (gmap string string)).

(** [[...m.values()]] *)
Definition map_values {A} (m : gmap string A) : list A := (map_to_list m).*2.

(** [/[a-z0-9_]/i] *)
Definition is_word_char (c : ascii) : bool :=
  Js.is_lower c || Js.is_upper c || Js.is_digit c || Ascii.eqb c "_".

(** [/[a-z0-9_]/] *)
Definition is_extension_char (c : ascii) : bool :=
  Js.is_lower c || Js.is_digit c || Ascii.eqb c "_".

(** [s.replace(/\.[a-z0-9_]+$/, '')]: the first dot that is followed, up to
    the end, by one or more extension characters is cut off with them. *)
Fixpoint strip_extension (s : string) : string :=
  match s with
  | EmptyString => EmptyString
  | String c s' =>
      if Ascii.eqb c "." && negb (String.eqb s' "")
         && Js.all_chars is_extension_char s'
      then EmptyString
      else String c (strip_extension s')
  end.

(** [s.replace(/[^a-z0-9_]/gi, '$')] *)
Definition replace_non_word (s : string) : string :=
  Js.map_chars (fun c => if is_word_char c then c else "$"%char) s.

(** [(p, d)]: [d] is the longest run of decimal digits that ends [s], [p]
    what comes before it. *)
Fixpoint split_trailing_digits (s : string) : string * string :=
  match s with
  | EmptyString => (EmptyString, EmptyString)
  | String c s' =>
      let '(p, d) := split_trailing_digits s' in
      if String.eqb p "" && Js.is_digit c then (EmptyString, String c d)
      else (String c p, d)
  end.

Fixpoint last_char (s : string) : option ascii :=
  match s with
  | EmptyString => None
  | String c EmptyString => Some c
  | String _ s' => last_char s'
  end.

(** [trialName.match(/\$[0-9]+$/)] *)
Definition has_counter_suffix (trialName : string) : bool :=
  let '(p, d) := split_trailing_digits trialName in
  negb (String.eqb d "") && bool_decide (last_char p = Some "$"%char).

(** [trialName.replace(/[0-9]+$/, (v) => `${parseInt(v) + 1}`)] *)
Definition increment_counter (trialName : string) : string :=
  let '(p, d) := split_trailing_digits trialName in
  if String.eqb d "" then trialName
  else p +:+ Js.number_to_string (Js.add_one (Js.parseInt d)).

(** The [else] branch of the loop body: the next name to try. *)
Definition next_trial_name (trialName : string) : string :=
  if has_counter_suffix trialName then increment_counter trialName
  else trialName +:+ "$1".

(** The test of the loop body: no module of the bundle has [trialName]
    among its assigned names. *)
Definition is_unused (bundledExports : BundledExports) (trialName : string) : bool :=
  forallb (fun map : gmap string string =>
             bool_decide (trialName ∉ map_values map))
          (map_values bundledExports).

(** [while (!exportName) { ... }].  The loop has no bound in the source;
    [fuel] bounds the number of iterations here, and [None] says that the
    loop was still running when the fuel ran out.  An unused but empty
    [trialName] is assigned to [exportName], which is still falsy after
    that, and the loop goes round again with the same [trialName]. *)
Fixpoint find_unused_name (fuel : nat) (bundledExports : BundledExports)
    (trialName : string) : option string :=
  match fuel with
  | O => None
  | S fuel' =>
      if is_unused bundledExports trialName then
        match Js.truthy (Some trialName) with
        | Some exportName => Some exportName
        | None => find_unused_name fuel' bundledExports trialName
        end
      else find_unused_name fuel' bundledExports (next_trial_name trialName)
  end.

Section Registry.

(** [getFileName] (url-utils.ts) and [camelCase] (utils.ts) are imported
    by the source file; the registry only passes text through them. *)
Variable getFileName : string -> string.
Variable camelCase : string -> string.

Definition moduleFileNameIdentifier (moduleUrl : string) : string :=
  "$" +:+ camelCase (strip_extension (getFileName moduleUrl)).

(** The first [trialName]: the three chained [replace] calls. *)
Definition initial_trial_name (moduleUrl name : string) : string :=
  let moduleFileNameIdentifier := moduleFileNameIdentifier moduleUrl in
  replace_non_word
    (Js.replace_whole "*" moduleFileNameIdentifier
       (Js.replace_whole "default" (moduleFileNameIdentifier +:+ "Default")
          name)).

(** [getOrSetBundleModuleExportName(bundle, moduleUrl, name)]: the name
    returned and the bundle's export map after the call. *)
Definition getOrSetBundleModuleExportName (fuel : nat)
    (bundledExports : BundledExports) (moduleUrl name : string)
    : option (string * BundledExports) :=
  let '(moduleExports, bundledExports) :=
    match bundledExports !! moduleUrl with
    | Some moduleExports => (moduleExports, bundledExports)
    | None => (∅, <[moduleUrl := ∅]> bundledExports)
    end in
  match Js.truthy (moduleExports !! name) with
  | Some exportName => Some (exportName, bundledExports)
  | None =>
      match find_unused_name fuel bundledExports
              (initial_trial_name moduleUrl name) with
      | Some exportName =>
          Some (exportName,
                <[moduleUrl := <[name := exportName]> moduleExports]>
                  bundledExports)
      | None => None
      end
  end.

(** A sequence of calls on one bundle, in order; the names returned and the
    export map at the end. *)
Fixpoint resolve_all (fuel : nat) (bundledExports : BundledExports)
    (requests : list (string * string))
    : option (list string * BundledExports) :=
  match requests with
  | [] => Some ([], bundledExports)
  | (moduleUrl, name) :: rest =>
      match getOrSetBundleModuleExportName fuel bundledExports moduleUrl name with
      | None => None
      | Some (exportName, bundledExports') =>
          match resolve_all fuel bundledExports' rest with
          | None => None
          | Some (names, final) => Some (exportName :: names, final)
          end
      end
  end.

End Registry.

(* ===================================================================== *)
(** ** The export collector ([getModuleExportNames]) *)
(* ===================================================================== *)

(** The Babel syntax tree, as far as the collector looks at it.  Fields that
    Babel leaves [null] are options: the holes of an array pattern, the
    declaration of [export {x as y}], a missing initialiser.  [Other] stands
    for every node kind that has no constructor of its own (literals,
    expressions, statements, ...). *)
#[warnings="-register-all"]
Inductive node :=
| Identifier (name : string)
| ArrayPattern (elements : list (option node))
| ObjectPattern (properties : list node)
| ObjectProperty (key value : node)
| RestElement (argument : node)
| AssignmentPattern (left right : node)
| VariableDeclarator (id : node) (init : option node)
| VariableDeclaration (kind : string) (declarations : list node)
| FunctionDeclaration (id : option node) (params : list node) (body : node)
| ClassDeclaration (id : option node) (superClass : option node) (body : node)
| ExportSpecifier (local exported : node)
| ExportNamedDeclaration (declaration : option node) (specifiers : list node)
    (source : option node)
| ExportDefaultDeclaration (declaration : node)
| Program (body : list node)
| Other (type : string) (children : list node).

Definition on_nullable {A} (f : node -> list A) (n : option node) : list A :=
  match n with
  | Some n => f n
  | None => []
  end.

(** [getModuleExportIdentifiers(node)] for one node; the [if]s of the loop
    body test disjoint node kinds. *)
Fixpoint getModuleExportIdentifiers1 (n : node) : list string :=
  match n with
  | ArrayPattern elements =>
      flat_map (on_nullable getModuleExportIdentifiers1) elements
  | ClassDeclaration id _ _ => on_nullable getModuleExportIdentifiers1 id
  | FunctionDeclaration id _ _ => on_nullable getModuleExportIdentifiers1 id
  | VariableDeclarator id _ => getModuleExportIdentifiers1 id
  | ExportSpecifier _ exported => getModuleExportIdentifiers1 exported
  | Identifier name => [name]
  | ObjectPattern properties => flat_map getModuleExportIdentifiers1 properties
  | ObjectProperty _ value => getModuleExportIdentifiers1 value
  | VariableDeclaration _ declarations =>
      flat_map getModuleExportIdentifiers1 declarations
  | _ => []
  end.

(** [getModuleExportIdentifiers(...nodes)] *)
Definition getModuleExportIdentifiers (nodes : list (option node)) : list string :=
  flat_map (on_nullable getModuleExportIdentifiers1) nodes.

(** The visit of one node with the visitor of [getModuleExportNames]: on
    entering an [ExportNamedDeclaration] the handler pushes the identifiers
    of the specifiers and of the declaration on [exportedNames]; then the
    children of the node are visited, in the order of the node's visitor
    keys.  The result is what the visit pushes, in order. *)
Fixpoint visit_for_exports (n : node) : list string :=
  match n with
  | ExportNamedDeclaration declaration specifiers source =>
      getModuleExportIdentifiers (Some <$> specifiers)
      ++ getModuleExportIdentifiers [declaration]
      ++ on_nullable visit_for_exports declaration
      ++ flat_map visit_for_exports specifiers
      ++ on_nullable visit_for_exports source
  | Identifier _ => []
  | ArrayPattern elements => flat_map (on_nullable visit_for_exports) elements
  | ObjectPattern properties => flat_map visit_for_exports properties
  | ObjectProperty key value => visit_for_exports key ++ visit_for_exports value
  | RestElement argument => visit_for_exports argument
  | AssignmentPattern lhs rhs => visit_for_exports lhs ++ visit_for_exports rhs
  | VariableDeclarator id init =>
      visit_for_exports id ++ on_nullable visit_for_exports init
  | VariableDeclaration _ declarations => flat_map visit_for_exports declarations
  | FunctionDeclaration id params body =>
      on_nullable visit_for_exports id ++ flat_map visit_for_exports params
      ++ visit_for_exports body
  | ClassDeclaration id superClass body =>
      on_nullable visit_for_exports id ++ visit_for_exports body
      ++ on_nullable visit_for_exports superClass
  | ExportSpecifier local exported =>
      visit_for_exports local ++ visit_for_exports exported
  | ExportDefaultDeclaration declaration => visit_for_exports declaration
  | Program body => flat_map visit_for_exports body
  | Other _ children => flat_map visit_for_exports children
  end.

(** [traverse(node, {ExportNamedDeclaration: {enter}})]: the nodes below
    [node] are visited, parents first.  The visitor is not called for
    [node] itself. *)
Definition traverse_exports (n : node) : list string :=
  match n with
  | Identifier _ => []
  | ArrayPattern elements => flat_map (on_nullable visit_for_exports) elements
  | ObjectPattern properties => flat_map visit_for_exports properties
  | ObjectProperty key value => visit_for_exports key ++ visit_for_exports value
  | RestElement argument => visit_for_exports argument
  | AssignmentPattern lhs rhs => visit_for_exports lhs ++ visit_for_exports rhs
  | VariableDeclarator id init =>
      visit_for_exports id ++ on_nullable visit_for_exports init
  | VariableDeclaration _ declarations => flat_map visit_for_exports declarations
  | FunctionDeclaration id params body =>
      on_nullable visit_for_exports id ++ flat_map visit_for_exports params
      ++ visit_for_exports body
  | ClassDeclaration id superClass body =>
      on_nullable visit_for_exports id ++ visit_for_exports body
      ++ on_nullable visit_for_exports superClass
  | ExportSpecifier local exported =>
      visit_for_exports local ++ visit_for_exports exported
  | ExportNamedDeclaration declaration specifiers source =>
      on_nullable visit_for_exports declaration
      ++ flat_map visit_for_exports specifiers
      ++ on_nullable visit_for_exports source
  | ExportDefaultDeclaration declaration => visit_for_exports declaration
  | Program body => flat_map visit_for_exports body
  | Other _ children => flat_map visit_for_exports children
  end.

(** [new Set(array)]: the elements in the order of their first occurrence. *)
Definition js_set_of (l : list string) : list string :=
  fold_left (fun acc x => if bool_decide (x ∈ acc) then acc else acc ++ [x]) l [].

Definition getModuleExportNames (n : node) : list string :=
  js_set_of (traverse_exports n).

(** The names a declaration binds, as the language defines them
    (ECMAScript, BoundNames): what the specification calls the identifiers
    bound via function, class and variable declarations, destructuring
    patterns included.  A rest element binds its argument, a pattern with a
    default value binds its left-hand side.  The rest of an object pattern
    is a node of type [RestProperty] for the parser of Babel 6, which has
    no constructor of its own here; it binds its argument too. *)
Fixpoint bound_names (n : node) : list string :=
  match n with
  | Identifier name => [name]
  | ArrayPattern elements => flat_map (on_nullable bound_names) elements
  | ObjectPattern properties => flat_map bound_names properties
  | ObjectProperty _ value => bound_names value
  | RestElement argument => bound_names argument
  | AssignmentPattern lhs _ => bound_names lhs
  | VariableDeclarator id _ => bound_names id
  | VariableDeclaration _ declarations => flat_map bound_names declarations
  | FunctionDeclaration id _ _ => on_nullable bound_names id
  | ClassDeclaration id _ _ => on_nullable bound_names id
  | Other type children =>
      if String.eqb type "RestProperty" then flat_map bound_names children
      else []
  | _ => []
  end.

(** The names a module exports through its named-export declarations: the
    bound names of the exported declaration, and the exported alias of each
    export specifier. *)
Definition exported_names_of_statement (n : node) : list string :=
  match n with
  | ExportNamedDeclaration declaration specifiers _ =>
      flat_map (fun s => match s with
                         | ExportSpecifier _ (Identifier exported) => [exported]
                         | _ => []
                         end) specifiers
      ++ on_nullable bound_names declaration
  | _ => []
  end.

Definition exported_names (program : node) : list string :=
  match program with
  | Program body => flat_map exported_names_of_statement body
  | _ => []
  end.

(* ===================================================================== *)
(** ** The project converter ([ProjectConverter]) *)
(* ===================================================================== *)

(** A JavaScript [Map]: the entries in insertion order.  [set] on a key that
    is present replaces the value where it stands; on a new key it appends
    the entry. *)
Abbreviation JsMap K V := (list (K * V)).

Fixpoint jsmap_get {K V} `{EqDecision K} (k : K) (m : JsMap K V) : option V :=
  match m with
  | [] => None
  | (k', v) :: m' => if decide (k = k') then Some v else jsmap_get k m'
  end.

Fixpoint jsmap_set {K V} `{EqDecision K} (k : K) (v : V) (m : JsMap K V)
    : JsMap K V :=
  match m with
  | [] => [(k, v)]
  | (k', v') :: m' =>
      if decide (k = k') then (k, v) :: m' else (k', v') :: jsmap_set k v m'
  end.

Definition jsmap_keys {K V} (m : JsMap K V) : list K := m.*1.
Definition jsmap_values {K V} (m : JsMap K V) : list V := m.*2.

(** Modelled from the spec: the [ConversionResult] interface of
    [./js-module], of which the source only has the import.  A conversion
    result carries the original document URL, the output path of the
    converted file, the output content (absent when there is none) and the
    flag that the original file is to be deleted. *)
Record ConversionResult := {
  originalUrl : string;
  convertedFilePath : string;
  deleteOriginal : bool;
  output : option string
}.

Definition excludeFromResults : list string :=
  [ "shadycss/entrypoints/apply-shim.js";
    "bower_components/shadycss/entrypoints/apply-shim.js";
    "shadycss/entrypoints/custom-style-interface.js";
    "bower_components/shadycss/entrypoints/custom-style-interface.js" ].

(** The body of the [for] loop of [getResults], on the map built so far. *)
Definition getResults_step (results : JsMap string (option string))
    (convertedModule : ConversionResult) : JsMap string (option string) :=
  if bool_decide (originalUrl convertedModule ∈ excludeFromResults) then results
  else
    let results :=
      if deleteOriginal convertedModule
      then jsmap_set (originalUrl convertedModule) None results
      else results in
    match output convertedModule with
    | Some content =>
        jsmap_set (convertedFilePath convertedModule) (Some content) results
    | None => results
    end.

(** [getResults()]: a path is mapped to [Some content], or to [None] when
    the file is to be deleted. *)
Definition getResults (this_results : JsMap string ConversionResult)
    : JsMap string (option string) :=
  fold_left getResults_step (jsmap_values this_results) [].

(** What the specification says one record emits: nothing when its original
    URL is excluded; otherwise the tombstone for the original path when the
    record is marked for deletion, and the content for the converted path
    when there is content. *)
Definition emitted_entries (r : ConversionResult) : list (string * option string) :=
  if bool_decide (originalUrl r ∈ excludeFromResults) then []
  else
    (if deleteOriginal r then [(originalUrl r, None)] else [])
    ++ match output r with
       | Some content => [(convertedFilePath r, Some content)]
       | None => []
       end.

(** The classification of a document by the scanner
    ([scanResult.type]). *)
Inductive ScanResultType :=
| JsModuleType      (* 'js-module' *)
| HtmlDocumentType  (* 'html-document' *)
| DeleteFileType.   (* 'delete-file' *)

(** What the converter is built on and does not define: the analyzer's
    documents, the project scanner, the URL handler and the document
    converter.  They are functions of what the converter passes to them. *)
Class Collaborators := {
  Document : Type;
  ProjectScanner : Type;
  Exports : Type;
  (** [document.kinds] *)
  kinds : Document -> list string;
  (** [urlHandler.getDocumentUrl(document)] *)
  getDocumentUrl : Document -> string;
  (** [scanner.scanDocument(document)], [scanner.scanPackage(name)]: the
      scanner after the call *)
  scanDocument : ProjectScanner -> Document -> ProjectScanner;
  scanPackage : ProjectScanner -> string -> ProjectScanner;
  getPackageDocuments : ProjectScanner -> string -> list Document;
  (** [scanner.getResults().files.get(url)] and [.exports] *)
  scanned_file : ProjectScanner -> string -> option ScanResultType;
  scanned_exports : ProjectScanner -> Exports;
  (** [new DocumentConverter(document, exports, urlHandler, settings)] and
      its three methods *)
  convertJsModule : Document -> Exports -> list ConversionResult;
  convertTopLevelHtmlDocument : Document -> Exports -> ConversionResult;
  createDeleteResult : Document -> Exports -> ConversionResult
}.

(** How a call ends: it returns, or it throws an [Error] with a message. *)
Inductive completion :=
| Returns
| Throws (message : string).

Section Converter.
Context `{Collaborators}.

(** The fields of a [ProjectConverter] that change, and the lines that
    [console.assert] has written. *)
Record ProjectConverter := {
  scanner : ProjectScanner;
  results : JsMap string ConversionResult;
  console : list string
}.

(** [console.assert(condition, message)] writes the message when the
    condition is falsy and returns; it does not throw.  (So the Console
    Standard has it, and browsers and Node.js since version 10 with it;
    Node.js before version 10 threw an [AssertionError] instead.) *)
Definition console_assert (condition : bool) (message : string)
    (console : list string) : list string :=
  if condition then console else console ++ ["Assertion failed: " +:+ message].

(** [results.set(newModule.originalUrl, newModule)] *)
Definition store (results : JsMap string ConversionResult)
    (newModule : ConversionResult) : JsMap string ConversionResult :=
  jsmap_set (originalUrl newModule) newModule results.

Definition convertDocument (document : Document) (this : ProjectConverter)
    : completion * ProjectConverter :=
  let console :=
    console_assert
      (bool_decide ("html-document" ∈ kinds document))
      "convertDocument() must be called with an HTML document, but got [object Set]"
      (console this) in
  let scanner := scanDocument (scanner this) document in
  let documentUrl := getDocumentUrl document in
  match scanned_file scanner documentUrl with
  | None =>
      (Throws ("File not found during scan: " +:+ documentUrl),
       {| scanner := scanner; results := results this; console := console |})
  | Some type =>
      let exports := scanned_exports scanner in
      let results :=
        match type with
        | JsModuleType =>
            fold_left store (convertJsModule document exports) (results this)
        | HtmlDocumentType =>
            store (results this) (convertTopLevelHtmlDocument document exports)
        | DeleteFileType =>
            store (results this) (createDeleteResult document exports)
        end in
      (Returns, {| scanner := scanner; results := results; console := console |})
  end.

(** [for (const document of documents) this.convertDocument(document)]: an
    error thrown by one call ends the loop and is the error of the loop. *)
Fixpoint convertDocuments (documents : list Document) (this : ProjectConverter)
    : completion * ProjectConverter :=
  match documents with
  | [] => (Returns, this)
  | document :: rest =>
      match convertDocument document this with
      | (Returns, this') => convertDocuments rest this'
      | thrown => thrown
      end
  end.

Definition convertPackage (matchPackageName : string) (this : ProjectConverter)
    : completion * ProjectConverter :=
  let scanner := scanPackage (scanner this) matchPackageName in
  convertDocuments (getPackageDocuments scanner matchPackageName)
    {| scanner := scanner; results := results this; console := console this |}.

End Converter.

(* ===================================================================== *)
(** ** A small project, for the examples *)
(* ===================================================================== *)

Module Sample.

(** Stand-ins for [getFileName] and [camelCase]: the text after the last
    slash; dashes dropped and the letter after a dash in upper case. *)
Fixpoint getFileName (url : string) : string :=
  match url with
  | EmptyString => EmptyString
  | String c rest =>
      if Ascii.eqb c "/" then getFileName rest
      else if bool_decide ("/"%char ∈ list_ascii_of_string rest)
           then getFileName rest
           else url
  end.

Definition upper (c : ascii) : ascii :=
  if Js.is_lower c then ascii_of_nat (nat_of_ascii c - 32) else c.

Fixpoint camelCase (text : string) : string :=
  match text with
  | String "-" (String c rest) => String (upper c) (camelCase rest)
  | String c rest => String c (camelCase rest)
  | EmptyString => EmptyString
  end.

(** A document of the project: its URL, its kinds, the package it belongs
    to, the classification the scanner gives it (none for a file the scanner
    leaves out), the global names it defines and the ones it refers to. *)
Record document := {
  url : string;
  doc_kinds : list string;
  package : string;
  classification : option ScanResultType;
  defines : list string;
  refers_to : list string
}.

(** The scanner: the documents of the analysis it was built on, the files it
    has scanned so far with their classification, and the names those files
    export.  A file is scanned once. *)
Record project_scanner := {
  analysis : list document;
  files : JsMap string ScanResultType;
  exports : list string
}.

Definition scan (s : project_scanner) (d : document) : project_scanner :=
  match jsmap_get (url d) (files s), classification d with
  | None, Some type =>
      {| analysis := analysis s;
         files := jsmap_set (url d) type (files s);
         exports := exports s ++ defines d |}
  | _, _ => s
  end.

Definition package_documents (s : project_scanner) (name : string) : list document :=
  filter (fun d => package d = name) (analysis s).

(** The converted text of a document names the document, and imports those
    of the names it refers to that the scan has found as exports so far. *)
Definition converted_text (d : document) (exports : list string) : string :=
  fold_left (fun text name => text +:+ " import " +:+ name +:+ ";")
    (filter (fun name => name ∈ exports) (refers_to d))
    ("// " +:+ url d +:+ ";").

Definition as_module (d : document) (exports : list string) : ConversionResult :=
  {| originalUrl := url d;
     convertedFilePath := url d +:+ ".js";
     deleteOriginal := true;
     output := Some (converted_text d exports) |}.

Definition as_deleted (d : document) : ConversionResult :=
  {| originalUrl := url d;
     convertedFilePath := url d;
     deleteOriginal := true;
     output := None |}.

#[global] Instance collaborators : Collaborators := {|
  Document := document;
  ProjectScanner := project_scanner;
  Exports := list string;
  kinds := doc_kinds;
  getDocumentUrl := url;
  scanDocument := scan;
  scanPackage := fun s name => fold_left scan (package_documents s name) s;
  getPackageDocuments := package_documents;
  scanned_file := fun s u => jsmap_get u (files s);
  scanned_exports := exports;
  convertJsModule := fun d exports => [as_module d exports];
  convertTopLevelHtmlDocument := as_module;
  createDeleteResult := fun d _ => as_deleted d
|}.

Definition page_a : document :=
  {| url := "a.html"; doc_kinds := ["html-document"]; package := "app";
     classification := Some JsModuleType;
     defines := ["App.a"]; refers_to := ["Lib.b"] |}.

Definition page_b : document :=
  {| url := "b.html"; doc_kinds := ["html-document"]; package := "lib";
     classification := Some JsModuleType;
     defines := ["Lib.b"]; refers_to := [] |}.

Definition old_page : document :=
  {| url := "old.html"; doc_kinds := ["html-document"]; package := "app";
     classification := Some DeleteFileType;
     defines := []; refers_to := [] |}.

(** A script: not an HTML document. *)
Definition script : document :=
  {| url := "main.js"; doc_kinds := ["js-document"]; package := "tools";
     classification := Some JsModuleType;
     defines := []; refers_to := [] |}.

(** A file the scanner has no classification for. *)
Definition stray : document :=
  {| url := "stray.html"; doc_kinds := ["html-document"]; package := "tools";
     classification := None;
     defines := []; refers_to := [] |}.

Definition fresh_converter : ProjectConverter :=
  {| scanner := {| analysis := [page_a; page_b; old_page; script; stray];
                   files := [];
                   exports := [] |};
     results := [];
     console := [] |}.

(** [export const a = 1, {b, c: d} = obj;] *)
Definition export_const_a_b_d : node :=
  Program
    [ExportNamedDeclaration
       (Some (VariableDeclaration "const"
                [VariableDeclarator (Identifier "a")
                   (Some (Other "NumericLiteral" []));
                 VariableDeclarator
                   (ObjectPattern
                      [ObjectProperty (Identifier "b") (Identifier "b");
                       ObjectProperty (Identifier "c") (Identifier "d")])
                   (Some (Identifier "obj"))]))
       [] None].

(** [export {x as y};] *)
Definition export_x_as_y : node :=
  Program
    [ExportNamedDeclaration None
       [ExportSpecifier (Identifier "x") (Identifier "y")] None].

(** [export const [a, ...rest] = arr;] *)
Definition export_rest : node :=
  Program
    [ExportNamedDeclaration
       (Some (VariableDeclaration "const"
                [VariableDeclarator
                   (ArrayPattern
                      [Some (Identifier "a");
                       Some (RestElement (Identifier "rest"))])
                   (Some (Identifier "arr"))]))
       [] None].

(** [export const {a, ...others} = obj;], as the parser of Babel 6 has
    it. *)
Definition export_object_rest : node :=
  Program
    [ExportNamedDeclaration
       (Some (VariableDeclaration "const"
                [VariableDeclarator
                   (ObjectPattern
                      [ObjectProperty (Identifier "a") (Identifier "a");
                       Other "RestProperty" [Identifier "others"]])
                   (Some (Identifier "obj"))]))
       [] None].

(** [export const {a = 1} = obj;] *)
Definition export_with_default : node :=
  Program
    [ExportNamedDeclaration
       (Some (VariableDeclaration "const"
                [VariableDeclarator
                   (ObjectPattern
                      [ObjectProperty (Identifier "a")
                         (AssignmentPattern (Identifier "a")
                            (Other "NumericLiteral" []))])
                   (Some (Identifier "obj"))]))
       [] None].

End Sample.

(* ===================================================================== *)
(** ** The default-export test ([hasDefaultModuleExport]) *)
(* ===================================================================== *)

Definition on_nullable_any (f : node -> bool) (n : option node) : bool :=
  match n with
  | Some n => f n
  | None => false
  end.

(** The children of a node that Babel's [traverse] goes to, in the order of
    the node's visitor keys; [null] children are passed over. *)
Definition visitor_children (n : node) : list node :=
  match n with
  | Identifier _ => []
  | ArrayPattern elements => omap id elements
  | ObjectPattern properties => properties
  | ObjectProperty key value => [key; value]
  | RestElement argument => [argument]
  | AssignmentPattern lhs rhs => [lhs; rhs]
  | VariableDeclarator id init => id :: option_list init
  | VariableDeclaration _ declarations => declarations
  | FunctionDeclaration id params body => option_list id ++ params ++ [body]
  | ClassDeclaration id superClass body =>
      option_list id ++ [body] ++ option_list superClass
  | ExportSpecifier local exported => [local; exported]
  | ExportNamedDeclaration declaration specifiers source =>
      option_list declaration ++ specifiers ++ option_list source
  | ExportDefaultDeclaration declaration => [declaration]
  | Program body => body
  | Other _ children => children
  end.

(** [traverse.node(node, ...)]: the children of [node] are visited in
    order, until a visit stops the traversal.  [visit] says whether the
    visit of a node (the node's handlers, then its own children) has stopped
    it.  The visitor is not called for [node] itself. *)
Definition traverse_node (visit : node -> bool) (n : node) : bool :=
  match n with
  | Identifier _ => false
  | ArrayPattern elements => existsb (on_nullable_any visit) elements
  | ObjectPattern properties => existsb visit properties
  | ObjectProperty key value => visit key || visit value
  | RestElement argument => visit argument
  | AssignmentPattern lhs rhs => visit lhs || visit rhs
  | VariableDeclarator id init => visit id || on_nullable_any visit init
  | VariableDeclaration _ declarations => existsb visit declarations
  | FunctionDeclaration id params body =>
      on_nullable_any visit id || existsb visit params || visit body
  | ClassDeclaration id superClass body =>
      on_nullable_any visit id || visit body || on_nullable_any visit superClass
  | ExportSpecifier local exported => visit local || visit exported
  | ExportNamedDeclaration declaration specifiers source =>
      on_nullable_any visit declaration || existsb visit specifiers
      || on_nullable_any visit source
  | ExportDefaultDeclaration declaration => visit declaration
  | Program body => existsb visit body
  | Other _ children => existsb visit children
  end.

(** The visit of one node with the visitor of [hasDefaultModuleExport]:
    entering an [ExportDefaultDeclaration] sets the flag and stops the
    traversal ([path.stop()]); any other node has its children visited. *)
Fixpoint visit_for_default (n : node) : bool :=
  match n with
  | ExportDefaultDeclaration _ => true
  | _ => traverse_node visit_for_default n
  end.

(** [hasDefaultModuleExport(node)]: the flag after [traverse(node, ...)]. *)
Definition hasDefaultModuleExport (n : node) : bool :=
  traverse_node visit_for_default n.

(* ===================================================================== *)
(** ** The reservation pass ([reserveBundleModuleExportNames]) *)
(* ===================================================================== *)

(** A bundle of the manifest, as far as the pass looks at it: its type, the
    URLs of its files and the names of its exports. *)
Record Bundle := {
  type : string;
  files : gset string;
  bundledExports : gmap string (gmap string string)
}.

Section Reserve.

Variable getFileName : string -> string.
Variable camelCase : string -> string.

(** [getAnalysisDocument(analysis, url).parsedDocument.ast]: the syntax
    tree the analyzer has for the URL of a bundle.  The analysis is made
    once, before the loop. *)
Variable parsedDocument_ast : string -> node.

(** The body of the [for] loop, for one bundle of type ['es6-module']: if
    the bundle has a file with its own URL, every name that file exports is
    resolved, in the order of the set. *)
Definition reserve_in_bundle (fuel : nat) (url : string) (bundle : Bundle)
    : option Bundle :=
  if bool_decide (url ∈ files bundle) then
    match resolve_all getFileName camelCase fuel (bundledExports bundle)
            ((fun exportName => (url, exportName))
               <$> getModuleExportNames (parsedDocument_ast url)) with
    | Some (_, bundledExports') =>
        Some {| type := type bundle;
                files := files bundle;
                bundledExports := bundledExports' |}
    | None => None
    end
  else Some bundle.

(** [reserveBundleModuleExportNames(analyzer, manifest)]: the bundles of the
    manifest after the pass, in their order.  Bundles of another type than
    ['es6-module'] are filtered out before the loop. *)
Fixpoint reserveBundleModuleExportNames (fuel : nat)
    (bundles : JsMap string Bundle) : option (JsMap string Bundle) :=
  match bundles with
  | [] => Some []
  | (url, bundle) :: rest =>
      match (if String.eqb (type bundle) "es6-module"
             then reserve_in_bundle fuel url bundle
             else Some bundle) with
      | None => None
      | Some bundle' =>
          match reserveBundleModuleExportNames fuel rest with
          | None => None
          | Some rest' => Some ((url, bundle') :: rest')
          end
      end
  end.

End Reserve.

(* ===================================================================== *)
(** ** A small manifest, for the examples *)
(* ===================================================================== *)

Module SampleManifest.

(** The bundle of the entrypoint [app.js], which has the entrypoint among
    its files. *)
Definition app_bundle : Bundle :=
  {| type := "es6-module";
     files := {[ "app.js"; "lib.js" ]};
     bundledExports := ∅ |}.

Definition page_bundle : Bundle :=
  {| type := "html-fragment";
     files := {[ "page.html" ]};
     bundledExports := ∅ |}.

(** A bundle of shared files: its URL is not the URL of one of them. *)
Definition shared_bundle : Bundle :=
  {| type := "es6-module";
     files := {[ "util.js"; "base.js" ]};
     bundledExports := ∅ |}.

Definition bundles : JsMap string Bundle :=
  [("app.js", app_bundle); ("page.html", page_bundle);
   ("shared_bundle_1.js", shared_bundle)].

(** The syntax trees of the analysis: [app.js] is
    [export const a = 1, {b, c: d} = obj;]. *)
Definition parsedDocument_ast (url : string) : node :=
  if String.eqb url "app.js" then Sample.export_const_a_b_d else Program [].

End SampleManifest.

(* ===================================================================== *)
(** ** Vocabulary of the properties *)
(* ===================================================================== *)

(** The name assigned to export [name] of module [moduleUrl], if any. *)
Definition export_name (b : BundledExports) (moduleUrl name : string)
    : option string :=
  b !! moduleUrl ≫= fun moduleExports => moduleExports !! name.

(** All assigned names of a bundle, module after module: the union the
    specification speaks of, with multiplicity. *)
Definition assigned_names (b : BundledExports) : list string :=
  map_to_list b ≫= fun entry => map_values entry.2.

(** No name is assigned to two different (module, export) pairs. *)
Definition unique_names (b : BundledExports) : Prop :=
  forall u1 n1 u2 n2 x,
    export_name b u1 n1 = Some x -> export_name b u2 n2 = Some x ->
    (u1, n1) = (u2, n2).

(** The integer a run of decimal digits denotes. *)
Definition digits_value (ds : string) : N :=
  match NilEmpty.uint_of_string ds with
  | Some d => N.of_uint d
  | None => 0
  end.

(** [ds] is a non-empty run of decimal digits: what [[0-9]+] matches. *)
Definition is_digits (ds : string) : bool :=
  negb (String.eqb ds "") && Js.all_chars Js.is_digit ds.

(** A bare identifier as the specification defines it: characters of
    [[A-Za-z0-9_$]] only, the first of them not a digit. *)
Definition is_identifier_char (c : ascii) : bool :=
  is_word_char c || Ascii.eqb c "$".

Definition is_identifier (s : string) : bool :=
  match s with
  | EmptyString => false
  | String c _ => negb (Js.is_digit c) && Js.all_chars is_identifier_char s
  end.

(** The name the [i]-th of a run of requests with trial name [t] gets on a
    bundle that has none of them yet: [t], [t$1], [t$2], ... *)
Definition nth_name (t : string) (i : nat) : string :=
  match i with
  | O => t
  | S _ => t +:+ "$" +:+ Js.decimal (N.of_nat i)
  end.

(** The export map after [moduleExports.set(name, exportName)], with
    [moduleExports] the map of [moduleUrl] (a new one if the bundle had
    none). *)
Definition assign (b : BundledExports) (moduleUrl name exportName : string)
    : BundledExports :=
  <[moduleUrl := <[name := exportName]> (default ∅ (b !! moduleUrl))]> b.

(** [results.set(path, value)] for each of a list of entries, in order. *)
Definition set_all (entries : list (string * option string))
    (results : JsMap string (option string)) : JsMap string (option string) :=
  fold_left (fun results entry => jsmap_set entry.1 entry.2 results)
    entries results.

(** A record that is deleted and replaced in place. *)
Definition replaced_in_place : ConversionResult :=
  {| originalUrl := "src/x.js";
     convertedFilePath := "src/x.js";
     deleteOriginal := true;
     output := Some "export {};" |}.

(** The records a call of [convertDocument] stores, given the scanner after
    the scan of the document: what the document converter produces for the
    classification of the document. *)
Definition stored_records `{Collaborators} (document : Document)
    (scanner : ProjectScanner) : list ConversionResult :=
  match scanned_file scanner (getDocumentUrl document) with
  | Some JsModuleType => convertJsModule document (scanned_exports scanner)
  | Some HtmlDocumentType =>
      [convertTopLevelHtmlDocument document (scanned_exports scanner)]
  | Some DeleteFileType => [createDeleteResult document (scanned_exports scanner)]
  | None => []
  end.

(** The integer at the end of a name: the value of its longest run of
    trailing digits. *)
Definition counter_value (t : string) : N :=
  digits_value (split_trailing_digits t).2.

(** Every name of the bundle is an identifier, and where it ends in
    [$<integer>], the integer can be counted up exactly. *)
Definition identifiers_with_exact_counters (b : BundledExports) : Prop :=
  forall u n y,
    export_name b u n = Some y ->
    is_identifier y = true /\
    (has_counter_suffix y = true -> (counter_value y + 1 < 2 ^ 53)%N).

Definition on_nullable_bool (f : node -> bool) (n : option node) : bool :=
  match n with
  | Some n => f n
  | None => true
  end.

(** A declaration or pattern that is made of identifiers, array and object
    patterns, object properties, declarators and variable, function and
    class declarations only.  So no binding in it is a rest element (a
    [RestElement], or the [RestProperty] of Babel 6) or has a default value
    (an [AssignmentPattern]), and none is of a node kind that has no
    constructor here. *)
Fixpoint plain_binding (n : node) : bool :=
  match n with
  | Identifier _ => true
  | ArrayPattern elements => forallb (on_nullable_bool plain_binding) elements
  | ObjectPattern properties => forallb plain_binding properties
  | ObjectProperty _ value => plain_binding value
  | VariableDeclarator id _ => plain_binding id
  | VariableDeclaration _ declarations => forallb plain_binding declarations
  | FunctionDeclaration id _ _ => on_nullable_bool plain_binding id
  | ClassDeclaration id _ _ => on_nullable_bool plain_binding id
  | _ => false
  end.

(** No named-export declaration anywhere in the tree. *)
Fixpoint no_named_export (n : node) : bool :=
  match n with
  | ExportNamedDeclaration _ _ _ => false
  | Identifier _ => true
  | ArrayPattern elements => forallb (on_nullable_bool no_named_export) elements
  | ObjectPattern properties => forallb no_named_export properties
  | ObjectProperty key value => no_named_export key && no_named_export value
  | RestElement argument => no_named_export argument
  | AssignmentPattern lhs rhs => no_named_export lhs && no_named_export rhs
  | VariableDeclarator id init =>
      no_named_export id && on_nullable_bool no_named_export init
  | VariableDeclaration _ declarations => forallb no_named_export declarations
  | FunctionDeclaration id params body =>
      on_nullable_bool no_named_export id && forallb no_named_export params
      && no_named_export body
  | ClassDeclaration id superClass body =>
      on_nullable_bool no_named_export id && no_named_export body
      && on_nullable_bool no_named_export superClass
  | ExportSpecifier local exported =>
      no_named_export local && no_named_export exported
  | ExportDefaultDeclaration declaration => no_named_export declaration
  | Program body => forallb no_named_export body
  | Other _ children => forallb no_named_export children
  end.

(** A statement of a module as a parser gives it: named exports stand at
    the top level only, and their specifiers name identifiers.  [plain]
    adds that the exported declaration has plain bindings only. *)
Definition plain_statement (n : node) : bool :=
  match n with
  | ExportNamedDeclaration declaration specifiers source =>
      on_nullable_bool plain_binding declaration
      && on_nullable_bool no_named_export declaration
      && forallb (fun s => match s with
                           | ExportSpecifier (Identifier _) (Identifier _) => true
                           | _ => false
                           end) specifiers
      && on_nullable_bool no_named_export source
  | _ => no_named_export n
  end.

(** The integer the loop starts to count from: the counter of the trial
    name if it has one, zero otherwise. *)
Definition start_counter (t : string) : N :=
  if has_counter_suffix t then counter_value t else 0%N.

(** [m] is a node below [n]: a child that the traversal goes to, or a node
    below such a child. *)
Inductive inside (m : node) : node -> Prop :=
| inside_child (n : node) : m ∈ visitor_children n -> inside m n
| inside_below (c n : node) :
    c ∈ visitor_children n -> inside m c -> inside m n.

(** [export {a, b as c};]: a named export that has specifiers only, each of
    them naming identifiers. *)
Definition specifiers_only (n : node) : bool :=
  match n with
  | ExportNamedDeclaration None specifiers None =>
      forallb (fun s => match s with
                        | ExportSpecifier (Identifier _) (Identifier _) => true
                        | _ => false
                        end) specifiers
  | _ => false
  end.

(** The value of the last of a list of entries that has the given path. *)
Definition last_entry (path : string) (entries : list (string * option string))
    : option (option string) :=
  snd <$> last (filter (fun entry => entry.1 = path) entries).

(** The last of a list of records that has the given original URL. *)
Definition last_record (url : string) (records : list ConversionResult)
    : option ConversionResult :=
  last (filter (fun r => originalUrl r = url) records).

(** Every entry of the cache stands under the original URL of its record,
    and no URL has two entries. *)
Definition keyed_by_original_url (cache : JsMap string ConversionResult) : Prop :=
  NoDup (jsmap_keys cache) /\
  Forall (fun entry => entry.1 = originalUrl entry.2) cache.

(** The export names of a module that a bundle without names takes as they
    are: identifier characters only, and not the name of the default
    export. *)
Definition is_plain_name (name : string) : bool :=
  negb (String.eqb name "") && Js.all_chars is_identifier_char name
  && negb (String.eqb name "default").

(** The export map after each of a list of names of module [url] has been
    assigned to itself. *)
Definition reserved (b : BundledExports) (url : string) (names : list string)
    : BundledExports :=
  fold_left (fun b name => assign b url name name) names b.

(* ===================================================================== *)
(** * Properties *)
(* ===================================================================== *)

(** ** Numbers and their text *)

Lemma round_to_double_small (y : N) :
  (y < 2 ^ 53)%N -> Js.round_to_double y = Js.Fin y.
Proof.
  intros Hy. unfold Js.round_to_double.
  destruct (N.ltb_spec y (2 ^ 53)) as [_|Hge]; [reflexivity|lia].
Qed.

(** An integer of [2^53] or more rounds to a double of [2^53] or more. *)
Lemma round_to_double_large (y v : N) :
  (2 ^ 53 <= y)%N -> Js.round_to_double y = Js.Fin v -> (2 ^ 53 <= v)%N.
Proof.
  intros Hy. unfold Js.round_to_double.
  destruct (N.ltb_spec y (2 ^ 53)) as [Hlt|_]; [lia|].
  set (e := (N.log2 y - 52)%N).
  set (q := (y / 2 ^ e)%N).
  set (q' := if (y mod 2 ^ e <? 2 ^ (e - 1))%N then q
             else if (2 ^ (e - 1) <? y mod 2 ^ e)%N then (q + 1)%N
             else if N.even q then q else (q + 1)%N).
  assert (Hlog : (53 <= N.log2 y)%N).
  { change 53%N with (N.log2 (2 ^ 53)). apply N.log2_le_mono. exact Hy. }
  assert (He : (1 <= e)%N) by (unfold e; lia).
  assert (Hpow : (2 ^ 52 * 2 ^ e <= y)%N).
  { rewrite <- N.pow_add_r. replace (52 + e)%N with (N.log2 y) by (unfold e; lia).
    apply N.log2_spec. lia. }
  assert (Hq : (2 ^ 52 <= q)%N).
  { unfold q. apply N.div_le_lower_bound; [apply N.pow_nonzero; lia|].
    rewrite N.mul_comm. exact Hpow. }
  assert (Hq' : (q <= q')%N).
  { unfold q'. repeat (destruct (_ <? _)%N || destruct (N.even _)); lia. }
  assert (H2 : (2 ^ 1 <= 2 ^ e)%N) by (apply N.pow_le_mono_r; lia).
  destruct (q' * 2 ^ e <? 2 ^ 1024)%N; [|discriminate].
  intros [= <-].
  change (2 ^ 53)%N with (2 ^ 52 * 2 ^ 1)%N.
  apply N.mul_le_mono; lia.
Qed.

Lemma represents_small (v y : N) :
  (v < 2 ^ 53)%N -> Js.represents v y = true -> y = v.
Proof.
  intros Hv. unfold Js.represents.
  destruct (N.lt_ge_cases y (2 ^ 53)) as [Hy|Hy].
  - rewrite (round_to_double_small _ Hy). intros Heq. by apply N.eqb_eq in Heq.
  - destruct (Js.round_to_double y) as [|v'|] eqn:Hr; try discriminate.
    intros Heq. apply N.eqb_eq in Heq. subst v'.
    apply round_to_double_large in Hr; [lia|exact Hy].
Qed.

Lemma shortest_small (v : N) (e : nat) :
  (v < 2 ^ 53)%N -> Js.shortest v e = v.
Proof.
  intros Hv. induction e as [|e IH]; simpl.
  - destruct (find _ _) as [y|] eqn:Hf; [|reflexivity].
    apply find_some in Hf as [_ Hf]. by apply represents_small in Hf.
  - destruct (find _ _) as [y|] eqn:Hf; [|exact IH].
    apply find_some in Hf as [_ Hf]. by apply represents_small in Hf.
Qed.

(** Below [2^53] numbers print as their decimal digits. *)
Lemma number_to_string_small (v : N) :
  (v < 2 ^ 53)%N -> Js.number_to_string (Js.Fin v) = Js.decimal v.
Proof.
  intros Hv. unfold Js.number_to_string.
  destruct v as [|p]; [reflexivity|].
  rewrite shortest_small by exact Hv.
  destruct (N.ltb_spec (N.pos p) (10 ^ 21)) as [_|Hge]; [reflexivity|].
  exfalso. assert ((2 ^ 53 < 10 ^ 21)%N) by reflexivity. lia.
Qed.

(** ** Digits and text *)

Lemma append_cons (c : ascii) (s t : string) :
  String c s +:+ t = String c (s +:+ t).
Proof. reflexivity. Qed.

Lemma append_assoc (s t u : string) : (s +:+ t) +:+ u = s +:+ (t +:+ u).
Proof.
  induction s as [|c s IH]; [reflexivity|]. by rewrite !append_cons, IH.
Qed.

Lemma append_eq_empty (s t : string) : s +:+ t = "" -> s = "" /\ t = "".
Proof.
  destruct s as [|c s]; [change ("" +:+ t) with t; by intros ->|].
  rewrite append_cons. discriminate.
Qed.

Lemma string_length_append (s t : string) :
  String.length (s +:+ t) = (String.length s + String.length t)%nat.
Proof.
  induction s as [|c s IH]; [reflexivity|].
  rewrite append_cons. simpl. by rewrite IH.
Qed.

(** Appending a non-empty text never gives the text back. *)
Lemma append_neq_self (s t : string) : t <> "" -> s +:+ t <> s.
Proof.
  intros Ht Heq. apply (f_equal String.length) in Heq.
  rewrite string_length_append in Heq.
  destruct t; [done|]. simpl in Heq. lia.
Qed.

Lemma is_digit_uint_of_char (c : ascii) (d : Decimal.uint) :
  Js.is_digit c = true -> exists d', uint_of_char c (Some d) = Some d'.
Proof.
  destruct c as [[] [] [] [] [] [] [] []]; try discriminate;
    intros _; eexists; reflexivity.
Qed.

Lemma all_digits_uint_of_string (ds : string) :
  Js.all_chars Js.is_digit ds = true ->
  exists d, NilEmpty.uint_of_string ds = Some d.
Proof.
  induction ds as [|c ds IH]; simpl; [by eexists|].
  intros [Hc Hds]%andb_true_iff.
  destruct (IH Hds) as [d ->]. by apply is_digit_uint_of_char.
Qed.

Lemma string_of_uint_all_digits (d : Decimal.uint) :
  Js.all_chars Js.is_digit (NilEmpty.string_of_uint d) = true.
Proof. induction d; simpl; try rewrite IHd; reflexivity. Qed.

Lemma decimal_nonempty (n : N) : Js.decimal n <> "".
Proof.
  unfold Js.decimal. destruct n as [|p]; [discriminate|]. simpl.
  pose proof (DecimalPos.Unsigned.to_uint_nonnil p) as Hnil.
  destruct (Pos.to_uint p); [done|discriminate..].
Qed.

Lemma decimal_is_digits (n : N) : is_digits (Js.decimal n) = true.
Proof.
  unfold is_digits. apply andb_true_iff. split.
  - apply negb_true_iff, String.eqb_neq, decimal_nonempty.
  - apply string_of_uint_all_digits.
Qed.

Lemma digits_value_decimal (n : N) : digits_value (Js.decimal n) = n.
Proof.
  unfold digits_value, Js.decimal. rewrite NilEmpty.usu.
  apply DecimalN.Unsigned.of_to.
Qed.

Lemma decimal_inj (n m : N) : Js.decimal n = Js.decimal m -> n = m.
Proof.
  intros Heq. rewrite <- (digits_value_decimal n), <- (digits_value_decimal m).
  by rewrite Heq.
Qed.

(** [parseInt] of a run of digits is the double next to its value. *)
Lemma parseInt_digits (ds : string) :
  is_digits ds = true ->
  Js.parseInt ds = Js.round_to_double (digits_value ds).
Proof.
  unfold is_digits. intros [Hne Hds]%andb_true_iff.
  apply negb_true_iff, String.eqb_neq in Hne.
  destruct (all_digits_uint_of_string _ Hds) as [d Hd].
  unfold Js.parseInt, digits_value. rewrite Hd. by destruct ds.
Qed.

(** Counting up is exact as long as the result is below [2^53]. *)
Lemma increment_digits_exact (ds : string) :
  is_digits ds = true -> (digits_value ds + 1 < 2 ^ 53)%N ->
  Js.number_to_string (Js.add_one (Js.parseInt ds))
  = Js.decimal (digits_value ds + 1).
Proof.
  intros Hds Hsmall. rewrite parseInt_digits by exact Hds.
  rewrite round_to_double_small by lia. simpl.
  rewrite round_to_double_small by exact Hsmall.
  by apply number_to_string_small.
Qed.

Lemma split_trailing_digits_all (ds : string) :
  Js.all_chars Js.is_digit ds = true -> split_trailing_digits ds = ("", ds).
Proof.
  induction ds as [|c ds IH]; simpl; [done|].
  intros [Hc Hds]%andb_true_iff. by rewrite (IH Hds), Hc.
Qed.

(** A run of digits after a text that does not end in a digit is the
    longest run of digits at the end. *)
Lemma split_trailing_digits_app (p ds : string) (c : ascii) :
  last_char p = Some c -> Js.is_digit c = false ->
  Js.all_chars Js.is_digit ds = true ->
  split_trailing_digits (p +:+ ds) = (p, ds).
Proof.
  intros Hlast Hc Hds. revert Hlast.
  induction p as [|a p IH]; [discriminate|].
  intros Hlast. rewrite append_cons. simpl.
  destruct p as [|a' p'].
  - simpl in Hlast. injection Hlast as ->.
    change ("" +:+ ds) with ds.
    rewrite (split_trailing_digits_all _ Hds). simpl. by rewrite Hc.
  - rewrite IH by exact Hlast. reflexivity.
Qed.

Lemma last_char_app (p : string) (c : ascii) :
  last_char (p +:+ String c "") = Some c.
Proof.
  induction p as [|a p IH]; [reflexivity|].
  rewrite append_cons. simpl. rewrite IH.
  destruct (p +:+ String c "") eqn:Heq; [|reflexivity].
  by apply append_eq_empty in Heq as [_ ?].
Qed.

Lemma split_trailing_digits_counter (base ds : string) :
  is_digits ds = true ->
  split_trailing_digits (base +:+ "$" +:+ ds) = (base +:+ "$", ds).
Proof.
  unfold is_digits. intros [_ Hds]%andb_true_iff.
  rewrite <- append_assoc.
  by apply (split_trailing_digits_app _ _ "$"%char); [apply last_char_app|..].
Qed.

(** What [/\$[0-9]+$/] matches. *)
Lemma has_counter_suffix_intro (base ds : string) :
  is_digits ds = true -> has_counter_suffix (base +:+ "$" +:+ ds) = true.
Proof.
  intros Hds. unfold has_counter_suffix.
  rewrite split_trailing_digits_counter by exact Hds.
  apply andb_true_iff in Hds as [-> _]. simpl.
  apply bool_decide_eq_true, last_char_app.
Qed.

Lemma split_trailing_digits_spec (s p d : string) :
  split_trailing_digits s = (p, d) ->
  s = p +:+ d /\ Js.all_chars Js.is_digit d = true.
Proof.
  revert p d. induction s as [|c s IH]; simpl; intros p d.
  - by intros [= <- <-].
  - destruct (split_trailing_digits s) as [p' d'].
    destruct (IH _ _ eq_refl) as [-> Hd'].
    destruct ((p' =? "")%string && Js.is_digit c) eqn:Hc; intros [= <- <-].
    + apply andb_true_iff in Hc as [->%String.eqb_eq Hc].
      split; [done|]. simpl. by rewrite Hc.
    + by rewrite append_cons.
Qed.

Lemma last_char_split (p : string) :
  last_char p = Some "$"%char -> exists base, p = base +:+ "$".
Proof.
  induction p as [|a p IH]; [discriminate|]. simpl.
  destruct p as [|a' p'].
  - intros [= ->]. by exists "".
  - intros Hlast. destruct (IH Hlast) as [base ->].
    exists (String a base). by rewrite append_cons.
Qed.

Lemma has_counter_suffix_elim (t : string) :
  has_counter_suffix t = true ->
  exists base ds, t = base +:+ "$" +:+ ds /\ is_digits ds = true.
Proof.
  unfold has_counter_suffix.
  destruct (split_trailing_digits t) as [p d] eqn:Hsplit.
  apply split_trailing_digits_spec in Hsplit as [-> Hd].
  intros [Hne Hlast]%andb_true_iff.
  apply bool_decide_eq_true in Hlast.
  destruct (last_char_split _ Hlast) as [base ->].
  exists base, d. split; [apply append_assoc|].
  unfold is_digits. by rewrite Hne, Hd.
Qed.

(** The step of the loop, in the words of the specification: a trailing
    [$<integer>] is counted up, any other name gets [$1] appended. *)
Lemma next_trial_name_counter (base ds : string) :
  is_digits ds = true -> (digits_value ds + 1 < 2 ^ 53)%N ->
  next_trial_name (base +:+ "$" +:+ ds)
  = base +:+ "$" +:+ Js.decimal (digits_value ds + 1).
Proof.
  intros Hds Hsmall. unfold next_trial_name.
  rewrite has_counter_suffix_intro by exact Hds.
  unfold increment_counter.
  rewrite split_trailing_digits_counter by exact Hds.
  pose proof Hds as [Hne _]%andb_true_iff.
  apply negb_true_iff in Hne. rewrite Hne.
  rewrite increment_digits_exact by done. apply append_assoc.
Qed.

(** ** The export-name registry *)

Lemma elem_of_map_values {A} (m : gmap string A) (x : A) :
  x ∈ map_values m <-> exists k, m !! k = Some x.
Proof.
  unfold map_values. rewrite list_elem_of_fmap. split.
  - intros [[k y] [-> Hin]]. exists k. by apply elem_of_map_to_list.
  - intros [k Hk]. exists (k, x). split; [done|]. by apply elem_of_map_to_list.
Qed.

Lemma export_name_Some (b : BundledExports) (u n x : string) :
  export_name b u n = Some x <-> exists m, b !! u = Some m /\ m !! n = Some x.
Proof.
  unfold export_name. destruct (b !! u) as [m|]; simpl.
  - split; [by exists m|]. by intros [m' [[= <-] ?]].
  - split; [done|]. by intros [m' [? _]].
Qed.

Lemma is_unused_spec (b : BundledExports) (t : string) :
  is_unused b t = true <-> forall u n, export_name b u n <> Some t.
Proof.
  unfold is_unused. rewrite forallb_forall. split.
  - intros Hall u n [m [Hu Hn]]%export_name_Some.
    assert (Hin : In m (map_values b)).
    { apply list_elem_of_In, elem_of_map_values. by exists u. }
    apply Hall, bool_decide_eq_true in Hin. apply Hin.
    apply elem_of_map_values. by exists n.
  - intros Hfree m [u Hu]%list_elem_of_In%elem_of_map_values.
    apply bool_decide_eq_true. intros [n Hn]%elem_of_map_values.
    apply (Hfree u n), export_name_Some. by exists m.
Qed.

Lemma elem_of_assigned_names (b : BundledExports) (x : string) :
  x ∈ assigned_names b <-> exists u n, export_name b u n = Some x.
Proof.
  unfold assigned_names. rewrite list_elem_of_bind. split.
  - intros [[u m] [[n Hn]%elem_of_map_values Hu%elem_of_map_to_list]].
    exists u, n. apply export_name_Some. by exists m.
  - intros (u & n & [m [Hu Hn]]%export_name_Some).
    exists (u, m). split; [|by apply elem_of_map_to_list].
    apply elem_of_map_values. by exists n.
Qed.

Lemma NoDup_bind_inv {A B} (f : A -> list B) (l : list A) :
  NoDup (l ≫= f) ->
  (forall x, x ∈ l -> NoDup (f x)) /\
  (NoDup l -> forall x1 x2 y, x1 ∈ l -> x2 ∈ l -> y ∈ f x1 -> y ∈ f x2 -> x1 = x2).
Proof.
  induction l as [|a l IH]; simpl.
  - intros _. split; intros; by decompose_list_elem_of.
  - intros (Ha & Hdisj & Hl)%NoDup_app. destruct (IH Hl) as [IH1 IH2].
    split.
    + intros x [->|Hx]%elem_of_cons; [done|by apply IH1].
    + intros [Hnotin Hnodup]%NoDup_cons x1 x2 y
        [->|H1]%elem_of_cons [->|H2]%elem_of_cons Hy1 Hy2.
      * done.
      * destruct (Hdisj y Hy1). apply list_elem_of_bind. eauto.
      * destruct (Hdisj y Hy2). apply list_elem_of_bind. eauto.
      * by apply (IH2 Hnodup x1 x2 y).
Qed.

Lemma NoDup_snd_inj {A B} (l : list (A * B)) (a a' : A) (x : B) :
  NoDup l.*2 -> (a, x) ∈ l -> (a', x) ∈ l -> a = a'.
Proof.
  induction l as [|[k v] l IH]; simpl; [by intros _ ?%not_elem_of_nil|].
  intros [Hnotin Hnodup]%NoDup_cons
    [[= -> ->]|H1]%elem_of_cons [[= ->]|H2]%elem_of_cons.
  - done.
  - destruct Hnotin. apply list_elem_of_fmap. by exists (a', v).
  - subst. destruct Hnotin. apply list_elem_of_fmap. by exists (a, v).
  - by apply IH.
Qed.

(** The two ways to say that a bundle has no duplicate name. *)
Lemma unique_names_NoDup (b : BundledExports) :
  unique_names b <-> NoDup (assigned_names b).
Proof.
  unfold assigned_names. split.
  - intros Huniq. apply NoDup_bind; [| |apply NoDup_map_to_list].
    + intros [u1 m1] [u2 m2] y Hu1%elem_of_map_to_list Hu2%elem_of_map_to_list
        [n1 Hn1]%elem_of_map_values [n2 Hn2]%elem_of_map_values.
      simpl in *.
      assert (Heq : (u1, n1) = (u2, n2)).
      { apply (Huniq u1 n1 u2 n2 y); apply export_name_Some; eauto. }
      injection Heq as -> ->. congruence.
    + intros [u m] Hu%elem_of_map_to_list. simpl. unfold map_values.
      apply NoDup_fmap_2_strong; [|apply NoDup_map_to_list].
      intros [n1 x1] [n2 x2] H1%elem_of_map_to_list H2%elem_of_map_to_list.
      simpl. intros <-. f_equal.
      assert (Heq : (u, n1) = (u, n2)); [|congruence].
      apply (Huniq u n1 u n2 x1); apply export_name_Some; eauto.
  - intros [Hinner Houter]%NoDup_bind_inv u1 n1 u2 n2 x
      [m1 [Hu1 Hn1]]%export_name_Some [m2 [Hu2 Hn2]]%export_name_Some.
    specialize (Houter (NoDup_map_to_list b)).
    assert (Heq : (u1, m1) = (u2, m2)).
    { apply (Houter _ _ x); try by apply elem_of_map_to_list.
      - apply elem_of_map_values. by exists n1.
      - apply elem_of_map_values. by exists n2. }
    injection Heq as -> ->. f_equal.
    apply (NoDup_snd_inj (map_to_list m2) n1 n2 x).
    + apply (Hinner (u2, m2)). by apply elem_of_map_to_list.
    + by apply elem_of_map_to_list.
    + by apply elem_of_map_to_list.
Qed.

Lemma unique_names_empty : unique_names ∅.
Proof. intros u1 n1 u2 n2 x [m [Hu _]]%export_name_Some. done. Qed.

Lemma export_name_assign (b : BundledExports) (u n x u' n' : string) :
  export_name (assign b u n x) u' n'
  = if decide ((u', n') = (u, n)) then Some x else export_name b u' n'.
Proof.
  unfold export_name, assign.
  destruct (decide (u' = u)) as [->|Hu].
  - rewrite lookup_insert_eq. simpl.
    destruct (decide (n' = n)) as [->|Hn].
    + rewrite lookup_insert_eq. by rewrite decide_True.
    + rewrite lookup_insert_ne by done. rewrite decide_False by congruence.
      by destruct (b !! u).
  - rewrite lookup_insert_ne by done. by rewrite decide_False by congruence.
Qed.

(** Creating the empty map of a module that had none changes no name. *)
Lemma export_name_insert_empty (b : BundledExports) (u u' n' : string) :
  b !! u = None -> export_name (<[u := ∅]> b) u' n' = export_name b u' n'.
Proof.
  intros Hu. unfold export_name.
  destruct (decide (u' = u)) as [->|Hne].
  - by rewrite lookup_insert_eq, Hu.
  - by rewrite lookup_insert_ne.
Qed.

Lemma is_unused_ext (b1 b2 : BundledExports) (t : string) :
  (forall u n, export_name b1 u n = export_name b2 u n) ->
  is_unused b1 t = is_unused b2 t.
Proof.
  intros Hext. apply eq_true_iff_eq. rewrite !is_unused_spec.
  by setoid_rewrite Hext.
Qed.

Lemma find_unused_name_ext (fuel : nat) (b1 b2 : BundledExports) (t : string) :
  (forall u n, export_name b1 u n = export_name b2 u n) ->
  find_unused_name fuel b1 t = find_unused_name fuel b2 t.
Proof.
  intros Hext. revert t. induction fuel as [|fuel IH]; intros t; simpl; [done|].
  rewrite (is_unused_ext b1 b2 t Hext).
  destruct (is_unused b2 t); [|apply IH].
  destruct t as [|c t]; simpl; [apply IH|done].
Qed.

Lemma truthy_Some (v : option string) (x : string) :
  Js.truthy v = Some x <-> v = Some x /\ x <> "".
Proof.
  destruct v as [[|c s]|]; simpl; split; try done.
  - by intros [[= <-] ?].
  - by intros [= <-].
  - by intros [[= <-] _].
  - by intros [? _].
Qed.

(** The loop returns an unused, non-empty name. *)
Lemma find_unused_name_unused (fuel : nat) (b : BundledExports) (t x : string) :
  find_unused_name fuel b t = Some x -> is_unused b x = true /\ x <> "".
Proof.
  revert t. induction fuel as [|fuel IH]; intros t; simpl; [done|].
  destruct (is_unused b t) eqn:Hfree; [|apply IH].
  destruct t as [|c t]; simpl; [apply IH|].
  by intros [= <-].
Qed.

Section RegistryFacts.

Variable getFileName : string -> string.
Variable camelCase : string -> string.

Local Abbreviation getOrSet :=
  (getOrSetBundleModuleExportName getFileName camelCase).
Local Abbreviation resolve := (resolve_all getFileName camelCase).
Local Abbreviation trial := (initial_trial_name getFileName camelCase).

(** The function in one equation: the assigned name if there is a truthy
    one, the first unused trial name otherwise, which is then assigned. *)
Lemma getOrSet_eq (fuel : nat) (b : BundledExports) (u n : string) :
  getOrSet fuel b u n
  = match Js.truthy (export_name b u n) with
    | Some x => Some (x, b)
    | None =>
        (fun x => (x, assign b u n x)) <$> find_unused_name fuel b (trial u n)
    end.
Proof.
  unfold getOrSetBundleModuleExportName, export_name, assign.
  destruct (b !! u) as [m|] eqn:Hu; simpl.
  - destruct (Js.truthy (m !! n)); [done|].
    by destruct (find_unused_name fuel b _).
  - rewrite lookup_empty. simpl.
    rewrite (find_unused_name_ext fuel (<[u:=∅]> b) b)
      by (intros; by apply export_name_insert_empty).
    destruct (find_unused_name fuel b _); simpl; [|done].
    by rewrite insert_insert_eq.
Qed.

(** What a call that returns has done. *)
Lemma getOrSet_returns (fuel : nat) (b b' : BundledExports) (u n x : string) :
  getOrSet fuel b u n = Some (x, b') ->
  x <> "" /\
  ((export_name b u n = Some x /\ b' = b) \/
   (Js.truthy (export_name b u n) = None /\ is_unused b x = true /\
    b' = assign b u n x)).
Proof.
  rewrite getOrSet_eq.
  destruct (Js.truthy (export_name b u n)) as [y|] eqn:Hmemo.
  - intros [= -> <-]. apply truthy_Some in Hmemo as [Hy Hne]. by split; [|left].
  - destruct (find_unused_name fuel b (trial u n)) as [y|] eqn:Hloop; [|done].
    simpl. intros [= -> <-].
    apply find_unused_name_unused in Hloop as [Hfree Hne].
    by split; [|right].
Qed.

Lemma getOrSet_assigned (fuel : nat) (b b' : BundledExports) (u n x : string) :
  getOrSet fuel b u n = Some (x, b') -> export_name b' u n = Some x.
Proof.
  intros [_ [[Hmemo ->]|(_ & _ & ->)]]%getOrSet_returns; [done|].
  rewrite export_name_assign. by rewrite decide_True.
Qed.

(** A call leaves the truthy names of the bundle where they are. *)
Lemma getOrSet_keeps (fuel : nat) (b b' : BundledExports) (u n x u0 n0 y : string) :
  getOrSet fuel b u n = Some (x, b') ->
  export_name b u0 n0 = Some y -> y <> "" -> export_name b' u0 n0 = Some y.
Proof.
  intros [_ [[_ ->]|(Hnone & _ & ->)]]%getOrSet_returns Hy Hne; [done|].
  rewrite export_name_assign. case_decide as Heq; [|done].
  injection Heq as -> ->.
  assert (Htruthy : Js.truthy (export_name b u n) = Some y)
    by by apply truthy_Some.
  congruence.
Qed.

Lemma getOrSet_unique (fuel : nat) (b b' : BundledExports) (u n x : string) :
  unique_names b -> getOrSet fuel b u n = Some (x, b') -> unique_names b'.
Proof.
  intros Huniq [_ [[_ ->]|(_ & Hfree & ->)]]%getOrSet_returns; [done|].
  pose proof (proj1 (is_unused_spec b x) Hfree) as Hnot.
  intros u1 n1 u2 n2 y. rewrite !export_name_assign.
  repeat case_decide; intros H1 H2; simplify_eq; try done.
  - by destruct (Hnot u2 n2).
  - by destruct (Hnot u1 n1).
  - by apply (Huniq u1 n1 u2 n2 y).
Qed.

(** The name a call returns belongs to no other pair, before or after. *)
Lemma getOrSet_not_shared (fuel : nat) (b b' : BundledExports)
    (u n x u' n' : string) :
  unique_names b -> getOrSet fuel b u n = Some (x, b') -> (u', n') <> (u, n) ->
  export_name b u' n' <> Some x /\ export_name b' u' n' <> Some x.
Proof.
  intros Huniq Hcall Hother.
  pose proof (getOrSet_unique _ _ _ _ _ _ Huniq Hcall) as Huniq'.
  pose proof (getOrSet_assigned _ _ _ _ _ _ Hcall) as Hassigned.
  split; [|by intros Hx; apply Hother, (Huniq' u' n' u n x)].
  destruct (getOrSet_returns _ _ _ _ _ _ Hcall)
    as [_ [[Hmemo ->]|(_ & Hfree & ->)]].
  - by intros Hx; apply Hother, (Huniq u' n' u n x).
  - apply (proj1 (is_unused_spec b x) Hfree).
Qed.

Lemma resolve_cons (fuel : nat) (b : BundledExports) (u n : string)
    (rest : list (string * string)) (names : list string) (final : BundledExports) :
  resolve fuel b ((u, n) :: rest) = Some (names, final) ->
  exists x b' names',
    getOrSet fuel b u n = Some (x, b') /\
    resolve fuel b' rest = Some (names', final) /\ names = x :: names'.
Proof.
  simpl. destruct (getOrSet fuel b u n) as [[x b']|] eqn:Hcall; [|done].
  destruct (resolve fuel b' rest) as [[names' final']|] eqn:Hrest; [|done].
  intros [= <- <-]. by exists x, b', names'.
Qed.

Lemma resolve_keeps (fuel : nat) (b final : BundledExports)
    (requests : list (string * string)) (names : list string) (u0 n0 y : string) :
  resolve fuel b requests = Some (names, final) ->
  export_name b u0 n0 = Some y -> y <> "" -> export_name final u0 n0 = Some y.
Proof.
  revert b names. induction requests as [|[u n] rest IH]; intros b names.
  - simpl. by intros [= _ <-].
  - intros (x & b' & names' & Hcall & Hrest & _)%resolve_cons Hy Hne.
    apply (IH b' names' Hrest); [|done].
    by apply (getOrSet_keeps _ _ _ _ _ _ _ _ _ Hcall).
Qed.

Lemma resolve_unique (fuel : nat) (b final : BundledExports)
    (requests : list (string * string)) (names : list string) :
  unique_names b -> resolve fuel b requests = Some (names, final) ->
  unique_names final.
Proof.
  revert b names. induction requests as [|[u n] rest IH]; intros b names Huniq.
  - simpl. by intros [= _ <-].
  - intros (x & b' & names' & Hcall & Hrest & _)%resolve_cons.
    apply (IH b' names'); [|done]. by apply (getOrSet_unique _ _ _ _ _ _ Huniq Hcall).
Qed.

(** At the end of a run every request has the name that its call returned. *)
Lemma resolve_assigned (fuel : nat) (b final : BundledExports)
    (requests : list (string * string)) (names : list string)
    (i : nat) (r : string * string) (x : string) :
  resolve fuel b requests = Some (names, final) ->
  requests !! i = Some r -> names !! i = Some x ->
  export_name final r.1 r.2 = Some x.
Proof.
  revert b names i. induction requests as [|[u n] rest IH]; intros b names i.
  - intros _ Hnil. by rewrite lookup_nil in Hnil.
  - intros (y & b' & names' & Hcall & Hrest & ->)%resolve_cons.
    destruct i as [|i]; simpl.
    + intros [= <-] [= <-]. simpl.
      apply (resolve_keeps _ _ _ _ _ _ _ _ Hrest).
      * by apply (getOrSet_assigned _ _ _ _ _ _ Hcall).
      * by apply (getOrSet_returns _ _ _ _ _ _ Hcall).
    + by apply (IH b' names' i).
Qed.

(** C1. Within one bundle the assigned names are pairwise distinct.  On a
    bundle without duplicate names (as a new bundle is), a call that returns
    leaves the bundle without duplicate names, and the name it returns is
    assigned to the pair of the call and to no other pair, neither before
    nor after the call.  After any sequence of calls the bundle is without
    duplicate names, and two calls of the sequence for different
    (moduleUrl, name) pairs have returned different names. *)
Theorem assigned_names_are_unique (b : BundledExports) :
  NoDup (assigned_names b) ->
  (forall fuel u n x b',
      getOrSetBundleModuleExportName getFileName camelCase fuel b u n
      = Some (x, b') ->
      NoDup (assigned_names b') /\
      export_name b' u n = Some x /\
      forall u' n', (u', n') <> (u, n) ->
        export_name b u' n' <> Some x /\ export_name b' u' n' <> Some x) /\
  (forall fuel requests names final,
      resolve_all getFileName camelCase fuel b requests
      = Some (names, final) ->
      NoDup (assigned_names final) /\
      forall i j ri rj xi xj,
        requests !! i = Some ri -> requests !! j = Some rj ->
        names !! i = Some xi -> names !! j = Some xj ->
        ri <> rj -> xi <> xj).
Proof.
  intros Huniq%unique_names_NoDup. split.
  - intros fuel u n x b' Hcall. split; [|split].
    + by apply unique_names_NoDup, (getOrSet_unique _ _ _ _ _ _ Huniq Hcall).
    + by apply (getOrSet_assigned _ _ _ _ _ _ Hcall).
    + intros u' n'. by apply (getOrSet_not_shared _ _ _ _ _ _ _ _ Huniq Hcall).
  - intros fuel requests names final Hrun.
    pose proof (resolve_unique _ _ _ _ _ Huniq Hrun) as Hfinal.
    split; [by apply unique_names_NoDup|].
    intros i j [ui ni] [uj nj] xi xj Hi Hj Hxi Hxj Hne ->.
    apply Hne, (Hfinal ui ni uj nj xj).
    + apply (resolve_assigned _ _ _ _ _ _ _ _ Hrun Hi Hxi).
    + apply (resolve_assigned _ _ _ _ _ _ _ _ Hrun Hj Hxj).
Qed.

(** C2. Resolving the same (bundle, moduleUrl, name) again, with any calls
    on the bundle in between, returns the same name, whatever the fuel, and
    leaves the whole export map as it was. *)
Theorem resolution_is_stable (fuel : nat) (b b1 : BundledExports)
    (u n x : string) :
  getOrSetBundleModuleExportName getFileName camelCase fuel b u n
  = Some (x, b1) ->
  forall fuel' between names b2,
    resolve_all getFileName camelCase fuel' b1 between = Some (names, b2) ->
    forall fuel'',
      getOrSetBundleModuleExportName getFileName camelCase fuel'' b2 u n
      = Some (x, b2).
Proof.
  intros Hfirst fuel' between names b2 Hbetween fuel''.
  assert (Hx : export_name b2 u n = Some x).
  { apply (resolve_keeps _ _ _ _ _ _ _ _ Hbetween).
    - by apply (getOrSet_assigned _ _ _ _ _ _ Hfirst).
    - by apply (getOrSet_returns _ _ _ _ _ _ Hfirst). }
  rewrite getOrSet_eq.
  assert (Htruthy : Js.truthy (export_name b2 u n) = Some x).
  { apply truthy_Some. split; [done|].
    by apply (getOrSet_returns _ _ _ _ _ _ Hfirst). }
  by rewrite Htruthy.
Qed.

End RegistryFacts.

(** A new bundle, three requests: two modules that export [x], and the
    default export of the first. *)
Lemma assigned_names_are_unique_witness :
  let requests :=
    [("lib/a.js", "x"); ("lib/b.js", "x"); ("lib/a.js", "default")] in
  let b1 := assign ∅ "lib/a.js" "x" "x" in
  let final :=
    assign (assign b1 "lib/b.js" "x" "x$1") "lib/a.js" "default" "$aDefault" in
  NoDup (assigned_names (∅ : BundledExports)) /\
  getOrSetBundleModuleExportName Sample.getFileName Sample.camelCase
    1 ∅ "lib/a.js" "x" = Some ("x", b1) /\
  NoDup (assigned_names b1) /\
  export_name b1 "lib/b.js" "x" <> Some "x" /\
  resolve_all Sample.getFileName Sample.camelCase 2 ∅ requests
  = Some (["x"; "x$1"; "$aDefault"], final) /\
  NoDup (assigned_names final).
Proof.
  intros requests b1 final.
  assert (Hnew : NoDup (assigned_names (∅ : BundledExports)))
    by (vm_compute; constructor).
  assert (Hcall : getOrSetBundleModuleExportName Sample.getFileName
                    Sample.camelCase 1 ∅ "lib/a.js" "x" = Some ("x", b1))
    by (vm_compute; reflexivity).
  assert (Hrun : resolve_all Sample.getFileName Sample.camelCase 2 ∅ requests
                 = Some (["x"; "x$1"; "$aDefault"], final))
    by (vm_compute; reflexivity).
  destruct (assigned_names_are_unique Sample.getFileName Sample.camelCase
              ∅ Hnew) as [Hone Hall].
  destruct (Hone 1%nat "lib/a.js" "x" "x" b1 Hcall) as (Hb1 & _ & Hothers).
  split; [exact Hnew|]. split; [exact Hcall|]. split; [exact Hb1|].
  split; [apply (Hothers "lib/b.js" "x"); discriminate|].
  split; [exact Hrun|].
  exact (proj1 (Hall 2%nat requests ["x"; "x$1"; "$aDefault"] final Hrun)).
Defined.

(** [x] of module [lib/a.js] is resolved, then [x] of [lib/b.js], then [x]
    of [lib/a.js] again, without fuel for the loop. *)
Lemma resolution_is_stable_witness :
  let b1 := assign ∅ "lib/a.js" "x" "x" in
  let b2 := assign b1 "lib/b.js" "x" "x$1" in
  getOrSetBundleModuleExportName Sample.getFileName Sample.camelCase
    1 ∅ "lib/a.js" "x" = Some ("x", b1) /\
  resolve_all Sample.getFileName Sample.camelCase 2 b1 [("lib/b.js", "x")]
  = Some (["x$1"], b2) /\
  getOrSetBundleModuleExportName Sample.getFileName Sample.camelCase
    0 b2 "lib/a.js" "x" = Some ("x", b2).
Proof.
  intros b1 b2.
  assert (Hfirst : getOrSetBundleModuleExportName Sample.getFileName
                     Sample.camelCase 1 ∅ "lib/a.js" "x" = Some ("x", b1))
    by (vm_compute; reflexivity).
  assert (Hbetween : resolve_all Sample.getFileName Sample.camelCase 2 b1
                       [("lib/b.js", "x")] = Some (["x$1"], b2))
    by (vm_compute; reflexivity).
  split; [exact Hfirst|]. split; [exact Hbetween|].
  exact (resolution_is_stable Sample.getFileName Sample.camelCase
           1 ∅ b1 "lib/a.js" "x" "x" Hfirst
           2%nat [("lib/b.js", "x")] ["x$1"] b2 Hbetween 0%nat).
Defined.

(** ** The collision loop *)

(** The loop returns the first name of the sequence [t], [next t],
    [next (next t)], ... that no module of the bundle has. *)
Lemma find_unused_name_first (fuel : nat) (b : BundledExports) (t x : string) :
  find_unused_name fuel b t = Some x ->
  exists k,
    x = Nat.iter k next_trial_name t /\ is_unused b x = true /\
    forall j, (j < k)%nat -> is_unused b (Nat.iter j next_trial_name t) = false.
Proof.
  revert t. induction fuel as [|fuel IH]; intros t; simpl; [done|].
  destruct (is_unused b t) eqn:Hfree.
  - destruct t as [|c t]; simpl; [apply IH|].
    intros [= <-]. exists 0%nat. split; [done|]. split; [done|]. lia.
  - intros (k & -> & Hx & Hbefore)%IH. exists (S k).
    rewrite Nat.iter_succ_r. split; [done|]. split; [done|].
    intros [|j] Hj; [done|]. rewrite Nat.iter_succ_r. apply Hbefore. lia.
Qed.

(** If the sequence reaches an unused, non-empty name after [k] steps, the
    loop returns it, given fuel for [k + 1] rounds. *)
Lemma find_unused_name_found (k fuel : nat) (b : BundledExports) (t : string) :
  (forall j, (j < k)%nat -> is_unused b (Nat.iter j next_trial_name t) = false) ->
  is_unused b (Nat.iter k next_trial_name t) = true ->
  Nat.iter k next_trial_name t <> "" ->
  (k < fuel)%nat ->
  find_unused_name fuel b t = Some (Nat.iter k next_trial_name t).
Proof.
  revert fuel t. induction k as [|k IH]; intros fuel t Hbefore Hfree Hne Hfuel.
  - destruct fuel as [|fuel]; [lia|]. simpl in *. rewrite Hfree.
    by destruct t.
  - destruct fuel as [|fuel]; [lia|]. simpl find_unused_name.
    assert (Htaken : is_unused b t = false) by (apply (Hbefore 0%nat); lia).
    rewrite Htaken. rewrite Nat.iter_succ_r in *. apply IH; [|done|done|lia].
    intros j Hj. specialize (Hbefore (S j)).
    rewrite Nat.iter_succ_r in Hbefore. apply Hbefore. lia.
Qed.

(** From a name without counter the sequence is [t], [t$1], [t$2], ... as
    long as JavaScript counts exactly. *)
Lemma iter_next_trial_name (t : string) (j : nat) :
  has_counter_suffix t = false -> (N.of_nat j < 2 ^ 53)%N ->
  Nat.iter j next_trial_name t = nth_name t j.
Proof.
  intros Hplain. induction j as [|j IH]; intros Hj; [done|].
  simpl Nat.iter. rewrite IH by lia.
  destruct j as [|j].
  - simpl. unfold next_trial_name. by rewrite Hplain.
  - unfold nth_name.
    rewrite next_trial_name_counter.
    + rewrite digits_value_decimal. do 3 f_equal. lia.
    + apply decimal_is_digits.
    + rewrite digits_value_decimal. lia.
Qed.

Lemma nth_name_inj (t : string) (i j : nat) :
  nth_name t i = nth_name t j -> i = j.
Proof.
  destruct i as [|i], j as [|j]; simpl; [done| | |].
  - intros Heq. symmetry in Heq. by apply append_neq_self in Heq.
  - intros Heq. by apply append_neq_self in Heq.
  - intros Heq%String.app_inj. injection Heq as Heq%decimal_inj. lia.
Qed.

Lemma nth_name_nonempty (t : string) (j : nat) : t <> "" -> nth_name t j <> "".
Proof.
  intros Ht. destruct j; [done|]. simpl. by intros [? _]%append_eq_empty.
Qed.

(** Assigning a name to a pair that had none takes that name and no
    other. *)
Lemma is_unused_assign (b : BundledExports) (u n y x : string) :
  export_name b u n = None ->
  is_unused (assign b u n y) x = negb (String.eqb x y) && is_unused b x.
Proof.
  intros Hnone. apply eq_true_iff_eq.
  rewrite andb_true_iff, negb_true_iff, String.eqb_neq, !is_unused_spec.
  setoid_rewrite export_name_assign. split.
  - intros Hfree. split.
    + intros ->. specialize (Hfree u n). by rewrite decide_True in Hfree.
    + intros u' n' Hx. specialize (Hfree u' n').
      case_decide as Heq; [|done]. injection Heq as -> ->. congruence.
  - intros [Hne Hfree] u' n'. case_decide; [congruence|apply Hfree].
Qed.

(** ** The assigned names as identifiers *)

(** C3 fails when the counter leaves the range in which JavaScript numbers
    count exactly.  Two modules of one bundle export
    [n$999999999999999999999], an identifier.  The second request finds the
    name taken; [parseInt("999999999999999999999")] is the double [1e21],
    [1e21 + 1] is [1e21] again, and its text is [1e+21]: the name assigned
    is [n$1e+21], which has a [+] in it. *)
Theorem exponent_in_assigned_name :
  forall getFileName camelCase,
    fst <$> resolve_all getFileName camelCase 2 ∅
              [("lib/a.js", "n$999999999999999999999");
               ("lib/b.js", "n$999999999999999999999")]
    = Some ["n$999999999999999999999"; "n$1e+21"] /\
    is_identifier "n$999999999999999999999" = true /\
    is_identifier "n$1e+21" = false.
Proof. intros getFileName camelCase. by vm_compute. Qed.

(** The same arithmetic stops the loop from ending: [2^53 + 1] is [2^53]
    in doubles, so a taken name with the counter [9007199254740992] is its
    own successor, and no amount of fuel lets the call return. *)
Lemma next_trial_name_stuck :
  next_trial_name "n$9007199254740992" = "n$9007199254740992".
Proof. by vm_compute. Qed.

Lemma find_unused_name_stuck (fuel : nat) (b : BundledExports) (t : string) :
  is_unused b t = false -> next_trial_name t = t ->
  find_unused_name fuel b t = None.
Proof.
  intros Htaken Hstuck. induction fuel as [|fuel IH]; simpl; [done|].
  by rewrite Htaken, Hstuck.
Qed.

Lemma counter_at_two_to_the_53_never_returns :
  forall getFileName camelCase fuel,
    getOrSetBundleModuleExportName getFileName camelCase fuel
      (assign ∅ "lib/a.js" "n$9007199254740992" "n$9007199254740992")
      "lib/b.js" "n$9007199254740992"
    = None.
Proof.
  intros getFileName camelCase fuel. rewrite getOrSet_eq.
  change (Js.truthy _) with (@None string).
  change (initial_trial_name _ _ _ _) with "n$9007199254740992".
  rewrite find_unused_name_stuck; [done| |apply next_trial_name_stuck].
  by vm_compute.
Qed.

(** Where the counters stay below [2^53], the property of C3 holds. *)

Lemma all_chars_append (p : ascii -> bool) (s t : string) :
  Js.all_chars p (s +:+ t) = Js.all_chars p s && Js.all_chars p t.
Proof.
  induction s as [|c s IH]; [done|].
  rewrite append_cons. simpl. by rewrite IH, andb_assoc.
Qed.

Lemma all_chars_impl (p q : ascii -> bool) (s : string) :
  (forall c, p c = true -> q c = true) ->
  Js.all_chars p s = true -> Js.all_chars q s = true.
Proof.
  intros Hpq. induction s as [|c s IH]; simpl; [done|].
  intros [Hc Hs]%andb_true_iff. by rewrite (Hpq c Hc), IH.
Qed.

Lemma is_digit_identifier_char (c : ascii) :
  Js.is_digit c = true -> is_identifier_char c = true.
Proof.
  intros Hc. unfold is_identifier_char, is_word_char.
  rewrite Hc. by rewrite !orb_true_r.
Qed.

Lemma is_identifier_append (s t : string) :
  is_identifier s = true -> Js.all_chars is_identifier_char t = true ->
  is_identifier (s +:+ t) = true.
Proof.
  destruct s as [|c s]; [done|]. rewrite append_cons. simpl.
  intros [Hfirst [Hc Hs]%andb_true_iff]%andb_true_iff Ht.
  by rewrite Hfirst, Hc, all_chars_append, Hs, Ht.
Qed.

Lemma is_identifier_prefix (base rest : string) :
  is_identifier (base +:+ "$" +:+ rest) = true ->
  is_identifier (base +:+ "$") = true.
Proof.
  destruct base as [|c base]; [done|]. rewrite !append_cons. simpl.
  rewrite !all_chars_append.
  intros [-> [-> [-> _]%andb_true_iff]%andb_true_iff]%andb_true_iff.
  reflexivity.
Qed.

(** The step of the loop keeps an identifier an identifier while it counts
    exactly. *)
Lemma next_trial_name_identifier (t : string) :
  is_identifier t = true ->
  (has_counter_suffix t = true -> (counter_value t + 1 < 2 ^ 53)%N) ->
  is_identifier (next_trial_name t) = true.
Proof.
  intros Ht Hsmall. destruct (has_counter_suffix t) eqn:Hsuffix.
  - destruct (has_counter_suffix_elim _ Hsuffix) as (base & ds & -> & Hds).
    specialize (Hsmall eq_refl). unfold counter_value in Hsmall.
    rewrite split_trailing_digits_counter in Hsmall by done. simpl in Hsmall.
    rewrite next_trial_name_counter by done.
    rewrite <- append_assoc. apply is_identifier_append.
    + by apply is_identifier_prefix in Ht.
    + apply (all_chars_impl Js.is_digit); [apply is_digit_identifier_char|].
      apply string_of_uint_all_digits.
  - unfold next_trial_name. rewrite Hsuffix. by apply is_identifier_append.
Qed.

Lemma forallb_false_elim {A} (f : A -> bool) (l : list A) :
  forallb f l = false -> exists x, x ∈ l /\ f x = false.
Proof.
  induction l as [|a l IH]; simpl; [done|].
  destruct (f a) eqn:Ha; simpl.
  - intros (x & Hx & Hfx)%IH. exists x. split; [by apply list_elem_of_further|done].
  - intros _. exists a. split; [apply list_elem_of_here|done].
Qed.

(** A name that is not unused is the name of some export. *)
Lemma is_unused_false_elim (b : BundledExports) (t : string) :
  is_unused b t = false -> exists u n, export_name b u n = Some t.
Proof.
  unfold is_unused.
  intros (m & [u Hu]%elem_of_map_values & Hm)%forallb_false_elim.
  apply bool_decide_eq_false in Hm.
  destruct (decide (t ∈ map_values m)) as [Hin|Hnotin]; [|done].
  apply elem_of_map_values in Hin as [n Hn].
  exists u, n. apply export_name_Some. by exists m.
Qed.

(** A trial name made from a name that does not start with a digit, and is
    neither empty nor one of the two special names, is an identifier. *)
Lemma replace_non_word_chars (s : string) :
  Js.all_chars is_identifier_char (replace_non_word s) = true.
Proof.
  unfold replace_non_word.
  induction s as [|c s IH]; [done|]. simpl. rewrite IH, andb_true_r.
  unfold is_identifier_char. destruct (is_word_char c) eqn:Hc; [by rewrite Hc|done].
Qed.

Lemma initial_trial_name_identifier
    (getFileName camelCase : string -> string) (u : string)
    (c : ascii) (rest : string) :
  Js.is_digit c = false ->
  String c rest <> "default" -> String c rest <> "*" ->
  is_identifier (initial_trial_name getFileName camelCase u (String c rest))
  = true.
Proof.
  intros Hc Hdefault Hstar. unfold initial_trial_name, Js.replace_whole.
  apply String.eqb_neq in Hdefault, Hstar. rewrite Hdefault, Hstar.
  pose proof (replace_non_word_chars (String c rest)) as Hchars.
  unfold replace_non_word in *. simpl in *. rewrite Hchars, andb_true_r.
  destruct (is_word_char c); [by rewrite Hc|done].
Qed.

Lemma assigned_name_is_identifier_while_exact
    (getFileName camelCase : string -> string)
    (fuel : nat) (b b' : BundledExports) (u n x : string) :
  identifiers_with_exact_counters b ->
  is_identifier (initial_trial_name getFileName camelCase u n) = true ->
  getOrSetBundleModuleExportName getFileName camelCase fuel b u n
  = Some (x, b') ->
  is_identifier x = true.
Proof.
  intros Hbundle Htrial Hcall.
  rewrite getOrSet_eq in Hcall.
  destruct (Js.truthy (export_name b u n)) as [y|] eqn:Hmemo.
  - injection Hcall as -> _. apply truthy_Some in Hmemo as [Hy _].
    by apply (Hbundle u n).
  - destruct (find_unused_name fuel b _) as [y|] eqn:Hloop; [|done].
    injection Hcall as -> _.
    apply find_unused_name_first in Hloop as (k & -> & _ & Htaken).
    induction k as [|k IH]; [done|]. simpl.
    assert (Hk : is_identifier
                   (Nat.iter k next_trial_name
                      (initial_trial_name getFileName camelCase u n)) = true).
    { apply IH. intros j Hj. apply Htaken. lia. }
    apply next_trial_name_identifier; [done|].
    destruct (is_unused_false_elim b _ (Htaken k (Nat.lt_succ_diag_r k)))
      as (u' & n' & Hassigned).
    by apply (Hbundle u' n').
Qed.

(** The trial names of the two special names start with the [$] of the
    module's identifier, unless the camel-cased file name starts with a
    backtick or an apostrophe: after [$], [replace] reads these as the text
    before and after the match, which is empty. *)
Lemma getSubstitution_first (matched rest : string) (c : ascii) :
  matched <> "" -> c <> "`"%char -> c <> "'"%char ->
  exists c' s,
    Js.getSubstitution matched (String "$" (String c rest)) = String c' s /\
    (c' = "$"%char \/ exists m, matched = String c' m).
Proof.
  intros Hmatched Hbacktick Hapostrophe.
  destruct matched as [|m matched]; [done|].
  destruct (decide (c = "$"%char)) as [->|Hdollar];
    [by eexists _, _; split; [reflexivity|left]|].
  destruct (decide (c = "&"%char)) as [->|Hamp];
    [by eexists _, _; split; [reflexivity|right; eexists]|].
  exists "$"%char. eexists. split; [|by left].
  destruct c as [[] [] [] [] [] [] [] []]; try done.
Qed.

Lemma is_identifier_replace_non_word (c : ascii) (s : string) :
  Js.is_digit c = false -> is_identifier (replace_non_word (String c s)) = true.
Proof.
  intros Hc. pose proof (replace_non_word_chars (String c s)) as Hchars.
  unfold replace_non_word in *. simpl in *. rewrite Hchars, andb_true_r.
  destruct (is_word_char c); [by rewrite Hc|done].
Qed.

Lemma special_trial_name_identifier
    (getFileName camelCase : string -> string) (u : string) :
  (forall c rest,
      camelCase (strip_extension (getFileName u)) = String c rest ->
      c <> "`"%char /\ c <> "'"%char) ->
  is_identifier (initial_trial_name getFileName camelCase u "default") = true /\
  is_identifier (initial_trial_name getFileName camelCase u "*") = true.
Proof.
  intros Hfirst. unfold initial_trial_name, moduleFileNameIdentifier.
  destruct (camelCase (strip_extension (getFileName u))) as [|c rest] eqn:Hname.
  { split; reflexivity. }
  destruct (Hfirst c rest eq_refl) as [Hbacktick Hapostrophe].
  split.
  - change (Js.replace_whole "default" ?r "default")
      with (Js.getSubstitution "default" r).
    rewrite !append_cons. change ("" +:+ ?s) with s. rewrite !append_cons.
    destruct (getSubstitution_first "default" (rest +:+ "Default") c)
      as (c' & s & Hsub & Hc'); [done..|].
    assert (Hnot_star : Js.replace_whole "*" (String "$" (String c rest))
                          (String c' s) = String c' s).
    { unfold Js.replace_whole.
      destruct (String.eqb_spec (String c' s) "*") as [Heq|]; [|done].
      injection Heq as -> ->.
      destruct Hc' as [?|[m [= ?]]]; done. }
    rewrite Hsub, Hnot_star. apply is_identifier_replace_non_word.
    by destruct Hc' as [->|[m [= <- _]]].
  - change (Js.replace_whole "default" ?r "*") with "*".
    change (Js.replace_whole "*" ?r "*") with (Js.getSubstitution "*" r).
    rewrite !append_cons. change ("" +:+ ?s) with s.
    destruct (getSubstitution_first "*" rest c)
      as (c' & s & Hsub & Hc'); [done..|].
    rewrite Hsub.
    destruct Hc' as [->|[m [= <- _]]]; by apply is_identifier_replace_non_word.
Qed.

(** ** The loop ends while the counter is exact

    The specification takes it that the loop always ends.  It does for a
    non-empty trial name as long as the counter stays below [2^53]: the
    names tried are pairwise different, and the bundle has only so many
    names. *)

Lemma iter_counted (base ds : string) (j : nat) :
  is_digits ds = true -> (digits_value ds + N.of_nat (S j) < 2 ^ 53)%N ->
  Nat.iter (S j) next_trial_name (base +:+ "$" +:+ ds)
  = base +:+ "$" +:+ Js.decimal (digits_value ds + N.of_nat (S j)).
Proof.
  intros Hds. induction j as [|j IH]; intros Hsmall.
  - simpl Nat.iter. by rewrite next_trial_name_counter by (done || lia).
  - change (Nat.iter (S (S j)) next_trial_name ?t)
      with (next_trial_name (Nat.iter (S j) next_trial_name t)).
    rewrite IH by lia.
    rewrite next_trial_name_counter.
    + rewrite digits_value_decimal. do 3 f_equal. lia.
    + apply decimal_is_digits.
    + rewrite digits_value_decimal. lia.
Qed.

(** The names tried are pairwise different. *)
Lemma iter_next_trial_name_inj (t : string) (i j : nat) :
  (start_counter t + N.of_nat i < 2 ^ 53)%N ->
  (start_counter t + N.of_nat j < 2 ^ 53)%N ->
  Nat.iter i next_trial_name t = Nat.iter j next_trial_name t -> i = j.
Proof.
  unfold start_counter. destruct (has_counter_suffix t) eqn:Hsuffix.
  - destruct (has_counter_suffix_elim _ Hsuffix) as (base & ds & -> & Hds).
    unfold counter_value. rewrite split_trailing_digits_counter by done.
    simpl. intros Hi Hj.
    destruct i as [|i], j as [|j]; [done| | |].
    + rewrite iter_counted by done. simpl.
      intros Heq%String.app_inj%String.app_inj.
      apply (f_equal digits_value) in Heq.
      rewrite digits_value_decimal in Heq. lia.
    + rewrite iter_counted by done. simpl.
      intros Heq%String.app_inj%String.app_inj.
      apply (f_equal digits_value) in Heq.
      rewrite digits_value_decimal in Heq. lia.
    + rewrite !iter_counted by done.
      intros Heq%String.app_inj%String.app_inj%decimal_inj. lia.
  - intros Hi Hj. rewrite !iter_next_trial_name by (done || lia).
    apply nth_name_inj.
Qed.

Lemma next_trial_name_nonempty (t : string) : next_trial_name t <> "".
Proof.
  unfold next_trial_name. destruct (has_counter_suffix t) eqn:Hsuffix.
  - destruct (has_counter_suffix_elim _ Hsuffix) as (base & ds & -> & Hds).
    unfold increment_counter. rewrite split_trailing_digits_counter by done.
    apply andb_true_iff in Hds as [Hne _]. apply negb_true_iff in Hne.
    rewrite Hne. rewrite append_assoc.
    intros [_ Habs]%append_eq_empty. by rewrite append_cons in Habs.
  - by intros [_ ?]%append_eq_empty.
Qed.

Lemma iter_next_trial_name_nonempty (t : string) (j : nat) :
  t <> "" -> Nat.iter j next_trial_name t <> "".
Proof. destruct j; [done|]. intros _. apply next_trial_name_nonempty. Qed.

(** Up to a bound, a test holds somewhere first or nowhere. *)
Lemma first_or_none (p : nat -> bool) (n : nat) :
  (exists k, (k < n)%nat /\ p k = true /\ forall j, (j < k)%nat -> p j = false) \/
  (forall k, (k < n)%nat -> p k = false).
Proof.
  induction n as [|n [(k & Hk & Hpk & Hfirst)|Hnone]].
  - right. lia.
  - left. exists k. split; [lia|done].
  - destruct (p n) eqn:Hpn.
    + left. exists n. split; [lia|]. split; [done|]. exact Hnone.
    + right. intros k Hk. destruct (decide (k = n)) as [->|]; [done|].
      apply Hnone. lia.
Qed.

(** Among one more names than the bundle has, all different, one is
    unused. *)
Lemma unused_name_within (b : BundledExports) (t : string) :
  (start_counter t + N.of_nat (length (assigned_names b)) < 2 ^ 53)%N ->
  exists k,
    (k <= length (assigned_names b))%nat /\
    is_unused b (Nat.iter k next_trial_name t) = true /\
    forall j, (j < k)%nat ->
      is_unused b (Nat.iter j next_trial_name t) = false.
Proof.
  intros Hsmall. set (size := length (assigned_names b)) in *.
  destruct (first_or_none
              (fun k => is_unused b (Nat.iter k next_trial_name t)) (S size))
    as [(k & Hk & Hfree & Hfirst)|Hnone].
  { exists k. split; [lia|done]. }
  exfalso.
  set (tried := (fun k => Nat.iter k next_trial_name t) <$> seq 0 (S size)).
  assert (Hnodup : NoDup tried).
  { apply NoDup_fmap_2_strong; [|apply NoDup_seq].
    intros i j [_ Hi]%elem_of_seq [_ Hj]%elem_of_seq.
    apply iter_next_trial_name_inj; lia. }
  assert (Hsub : tried ⊆+ assigned_names b).
  { apply NoDup_submseteq; [done|]. intros x Hx.
    apply list_elem_of_fmap in Hx as (k & -> & [_ Hk]%elem_of_seq).
    apply elem_of_assigned_names, is_unused_false_elim, Hnone. lia. }
  apply submseteq_length in Hsub.
  unfold tried in Hsub. rewrite length_fmap, length_seq in Hsub.
  fold size in Hsub. lia.
Qed.

(** With fuel for one round more than the bundle has names, the loop
    returns. *)
Lemma find_unused_name_returns (fuel : nat) (b : BundledExports) (t : string) :
  t <> "" ->
  (start_counter t + N.of_nat (length (assigned_names b)) < 2 ^ 53)%N ->
  (length (assigned_names b) < fuel)%nat ->
  exists x, find_unused_name fuel b t = Some x.
Proof.
  intros Ht Hsmall Hfuel.
  destruct (unused_name_within b t Hsmall) as (k & Hk & Hfree & Hfirst).
  exists (Nat.iter k next_trial_name t).
  apply find_unused_name_found; [done|done| |lia].
  by apply iter_next_trial_name_nonempty.
Qed.

(** So does the call. *)
Lemma getOrSet_returns_while_exact
    (getFileName camelCase : string -> string)
    (fuel : nat) (b : BundledExports) (u n : string) :
  initial_trial_name getFileName camelCase u n <> "" ->
  (start_counter (initial_trial_name getFileName camelCase u n)
   + N.of_nat (length (assigned_names b)) < 2 ^ 53)%N ->
  (length (assigned_names b) < fuel)%nat ->
  exists x b',
    getOrSetBundleModuleExportName getFileName camelCase fuel b u n
    = Some (x, b').
Proof.
  intros Ht Hsmall Hfuel. rewrite getOrSet_eq.
  destruct (Js.truthy (export_name b u n)) as [x|]; [by exists x, b|].
  destruct (find_unused_name_returns fuel b _ Ht Hsmall Hfuel) as [x ->].
  simpl. by eexists _, _.
Qed.

Section Collisions.

Variable getFileName : string -> string.
Variable camelCase : string -> string.

Local Abbreviation getOrSet :=
  (getOrSetBundleModuleExportName getFileName camelCase).
Local Abbreviation resolve := (resolve_all getFileName camelCase).
Local Abbreviation trial := (initial_trial_name getFileName camelCase).

(** Requests with one trial name [t], on a bundle that has the first [k]
    names of [t], [t$1], [t$2], ... and no other of them. *)
Lemma run_of_collisions (fuel : nat) (t : string) :
  t <> "" -> has_counter_suffix t = false ->
  forall (requests : list (string * string)) (k : nat) (b : BundledExports),
    NoDup requests ->
    Forall (fun r => trial r.1 r.2 = t /\ export_name b r.1 r.2 = None) requests ->
    (forall j, is_unused b (nth_name t j) = bool_decide (k <= j)%nat) ->
    (k + length requests <= fuel)%nat ->
    (N.of_nat (k + length requests) < 2 ^ 53)%N ->
    exists final,
      resolve fuel b requests
      = Some (nth_name t <$> seq k (length requests), final).
Proof.
  intros Ht Hplain.
  induction requests as [|[u n] rest IH];
    intros k b Hnodup Hreqs Hnames Hfuel Hsmall.
  - by exists b.
  - apply NoDup_cons in Hnodup as [Hnotin Hnodup].
    apply Forall_cons in Hreqs as [[Htrial Hnone] Hrest].
    simpl in Htrial, Hnone, Hfuel, Hsmall.
    assert (Hloop : find_unused_name fuel b t = Some (nth_name t k)).
    { rewrite <- (iter_next_trial_name t k) by (done || lia).
      apply find_unused_name_found.
      - intros j Hj. rewrite iter_next_trial_name by (done || lia).
        rewrite Hnames. apply bool_decide_eq_false. lia.
      - rewrite iter_next_trial_name by (done || lia).
        rewrite Hnames. by apply bool_decide_eq_true.
      - rewrite iter_next_trial_name by (done || lia).
        by apply nth_name_nonempty.
      - lia. }
    destruct (IH (S k) (assign b u n (nth_name t k))) as [final Hfinal].
    + done.
    + apply Forall_forall. intros [u' n'] Hin.
      rewrite Forall_forall in Hrest. destruct (Hrest _ Hin) as [Ht' Hnone'].
      split; [done|]. simpl in *. rewrite export_name_assign.
      case_decide as Heq; [|done]. by injection Heq as -> ->.
    + intros j. rewrite is_unused_assign by done. rewrite Hnames.
      destruct (decide (j = k)) as [->|Hjk].
      * rewrite String.eqb_refl. simpl. symmetry. apply bool_decide_eq_false. lia.
      * assert (Hne : nth_name t j <> nth_name t k)
          by (by intros ?%nth_name_inj).
        apply String.eqb_neq in Hne. rewrite Hne. simpl.
        apply bool_decide_ext. lia.
    + lia.
    + lia.
    + exists final. simpl resolve_all. rewrite getOrSet_eq, Hnone. simpl Js.truthy.
      rewrite Htrial, Hloop. simpl. by rewrite Hfinal.
Qed.

(** C6, as the code has it.  A taken trial name that ends in [$<integer>]
    has the integer counted up (exactly so below [2^53]); any other taken
    name gets [$1] appended.  The loop returns the first name of that
    sequence that no module of the bundle has; it ends, within one round
    more than the bundle has names, for a trial name that is not empty and
    whose counter stays below [2^53].  Requests for different
    (moduleUrl, name) pairs with one trial name [t] that is not empty and
    does not itself end in [$<integer>], on a bundle that has none of [t],
    [t$1], [t$2], ... and no name for these pairs yet, are assigned [t],
    [t$1], [t$2], ... in request order. *)
Theorem collision_counters_in_request_order :
  (forall base ds,
      is_digits ds = true -> (digits_value ds + 1 < 2 ^ 53)%N ->
      next_trial_name (base +:+ "$" +:+ ds)
      = base +:+ "$" +:+ Js.decimal (digits_value ds + 1)) /\
  (forall t, has_counter_suffix t = false -> next_trial_name t = t +:+ "$1") /\
  (forall t, has_counter_suffix t = true <->
             exists base ds, t = base +:+ "$" +:+ ds /\ is_digits ds = true) /\
  (forall fuel b t x,
      find_unused_name fuel b t = Some x ->
      exists k,
        x = Nat.iter k next_trial_name t /\ is_unused b x = true /\
        forall j, (j < k)%nat ->
          is_unused b (Nat.iter j next_trial_name t) = false) /\
  (forall fuel b t,
      t <> "" ->
      (start_counter t + N.of_nat (length (assigned_names b)) < 2 ^ 53)%N ->
      (length (assigned_names b) < fuel)%nat ->
      exists x, find_unused_name fuel b t = Some x) /\
  (forall fuel t requests b,
      t <> "" -> has_counter_suffix t = false ->
      NoDup requests ->
      Forall (fun r => initial_trial_name getFileName camelCase r.1 r.2 = t /\
                       export_name b r.1 r.2 = None)
        requests ->
      (forall j, is_unused b (nth_name t j) = true) ->
      (length requests <= fuel)%nat ->
      (N.of_nat (length requests) < 2 ^ 53)%N ->
      exists final,
        resolve_all getFileName camelCase fuel b requests
        = Some (nth_name t <$> seq 0 (length requests), final)).
Proof.
  split; [exact next_trial_name_counter|].
  split; [by intros t Ht; unfold next_trial_name; rewrite Ht|].
  split.
  { intros t. split; [apply has_counter_suffix_elim|].
    intros (base & ds & -> & Hds). by apply has_counter_suffix_intro. }
  split; [exact find_unused_name_first|].
  split; [exact find_unused_name_returns|].
  intros fuel t requests b Ht Hplain Hnodup Hreqs Hfree Hfuel Hsmall.
  apply (run_of_collisions fuel t Ht Hplain requests 0%nat b); try done.
Qed.

End Collisions.

Lemma collision_counters_in_request_order_witness :
  next_trial_name "x$1" = "x$2" /\
  (exists x, find_unused_name 1 ∅ "x" = Some x) /\
  exists final,
    resolve_all Sample.getFileName Sample.camelCase 3 ∅
      [("lib/a.js", "x"); ("lib/b.js", "x"); ("lib/c.js", "x")]
    = Some (["x"; "x$1"; "x$2"], final).
Proof.
  destruct (collision_counters_in_request_order
              Sample.getFileName Sample.camelCase)
    as (Hcount & _ & _ & _ & Hends & Hrun).
  split; [|split].
  - apply (Hcount "x" "1"); reflexivity.
  - apply (Hends 1%nat ∅ "x"); [discriminate|reflexivity|].
    vm_compute. lia.
  - apply (Hrun 3%nat "x"
             [("lib/a.js", "x"); ("lib/b.js", "x"); ("lib/c.js", "x")] ∅).
    + discriminate.
    + reflexivity.
    + apply (bool_decide_unpack _). reflexivity.
    + repeat constructor.
    + intros j. reflexivity.
    + simpl. lia.
    + reflexivity.
Defined.

(** C6 as the specification words it does not hold for a trial name that
    itself ends in a counter: three modules that export [v$5] get [v$5],
    [v$6] and [v$7].  The names of the second and the third request do not
    end in [$1] and [$2]. *)
Lemma counter_of_a_counted_name :
  fst <$> resolve_all Sample.getFileName Sample.camelCase 3 ∅
            [("lib/a.js", "v$5"); ("lib/b.js", "v$5"); ("lib/c.js", "v$5")]
  = Some ["v$5"; "v$6"; "v$7"] /\
  Forall (fun r => initial_trial_name Sample.getFileName Sample.camelCase
                     r.1 r.2 = "v$5")
    [("lib/a.js", "v$5"); ("lib/b.js", "v$5"); ("lib/c.js", "v$5")] /\
  (forall base, "v$6" <> base +:+ "$1") /\
  (forall base, "v$7" <> base +:+ "$2").
Proof.
  split; [by vm_compute|]. split; [by repeat constructor|].
  split; intros base Heq.
  - destruct base as [|? [|? [|? [|? ?]]]]; vm_compute in Heq; discriminate.
  - destruct base as [|? [|? [|? [|? ?]]]]; vm_compute in Heq; discriminate.
Qed.

(** ** The export collector *)

Lemma js_set_of_acc (l acc : list string) :
  NoDup acc ->
  let result :=
    fold_left (fun acc x => if bool_decide (x ∈ acc) then acc else acc ++ [x])
      l acc in
  NoDup result /\ forall x, x ∈ result <-> x ∈ acc \/ x ∈ l.
Proof.
  revert acc. induction l as [|a l IH]; intros acc Hacc; simpl.
  - split; [done|]. intros x. rewrite elem_of_nil. tauto.
  - case_bool_decide as Hin.
    + destruct (IH acc Hacc) as [Hnodup Hmem]. split; [done|].
      intros x. rewrite Hmem, elem_of_cons. split; [tauto|].
      intros [?|[->|?]]; tauto.
    + assert (Hacc' : NoDup (acc ++ [a])).
      { apply NoDup_app. split; [done|]. split; [|apply NoDup_singleton].
        intros x Hx ->%list_elem_of_singleton. done. }
      destruct (IH _ Hacc') as [Hnodup Hmem]. split; [done|].
      intros x. rewrite Hmem, elem_of_app, list_elem_of_singleton, elem_of_cons.
      tauto.
Qed.

(** A [Set] built from an array has every element of the array, once. *)
Lemma js_set_of_spec (l : list string) :
  NoDup (js_set_of l) /\ forall x, x ∈ js_set_of l <-> x ∈ l.
Proof.
  destruct (js_set_of_acc l [] (NoDup_nil_2 (A:=string))) as [Hnodup Hmem].
  split; [done|]. intros x. unfold js_set_of. rewrite Hmem, elem_of_nil. tauto.
Qed.

Lemma getModuleExportNames_NoDup (n : node) : NoDup (getModuleExportNames n).
Proof. apply js_set_of_spec. Qed.

(** The two examples of the specification. *)
Lemma getModuleExportNames_examples :
  getModuleExportNames Sample.export_const_a_b_d = ["a"; "b"; "d"] /\
  getModuleExportNames Sample.export_x_as_y = ["y"].
Proof. split; reflexivity. Qed.

(** The node that [traverse] is called with is not visited: a named export
    is found as a statement of a program, not as the root. *)
Lemma named_export_at_the_root :
  getModuleExportNames
    (ExportNamedDeclaration None
       [ExportSpecifier (Identifier "x") (Identifier "y")] None) = [] /\
  getModuleExportNames
    (Program [ExportNamedDeclaration None
                [ExportSpecifier (Identifier "x") (Identifier "y")] None])
  = ["y"].
Proof. split; reflexivity. Qed.

(** The rest of an object pattern is lost like the rest of an array
    pattern: [export const {a, ...others} = obj;] exports [a] and [others],
    the collector returns [a].  The declaration is no plain binding. *)
Lemma object_rest_binding_is_lost :
  exported_names Sample.export_object_rest = ["a"; "others"] /\
  getModuleExportNames Sample.export_object_rest = ["a"] /\
  match Sample.export_object_rest with
  | Program body => forallb plain_statement body
  | _ => true
  end = false.
Proof. repeat split; reflexivity. Qed.

(** C9 fails on patterns with a rest element or a default value: the
    collector has no case for [RestElement] and [AssignmentPattern], and the
    names they bind are lost.  [export const [a, ...rest] = arr;] exports
    [a] and [rest], the collector returns [a]; [export const {a = 1} = obj;]
    exports [a], the collector returns nothing. *)
Theorem rest_and_default_bindings_are_lost :
  exported_names Sample.export_rest = ["a"; "rest"] /\
  getModuleExportNames Sample.export_rest = ["a"] /\
  exported_names Sample.export_with_default = ["a"] /\
  getModuleExportNames Sample.export_with_default = [].
Proof. repeat split; reflexivity. Qed.

(** Where no exported binding is a rest element or has a default value, the
    collector is right. *)

Section NodeInduction.

Variable P : node -> Prop.

Hypothesis HIdentifier : forall name, P (Identifier name).
Hypothesis HArrayPattern :
  forall elements,
    Forall (fun e => forall n, e = Some n -> P n) elements ->
    P (ArrayPattern elements).
Hypothesis HObjectPattern :
  forall properties, Forall P properties -> P (ObjectPattern properties).
Hypothesis HObjectProperty :
  forall key value, P key -> P value -> P (ObjectProperty key value).
Hypothesis HRestElement : forall argument, P argument -> P (RestElement argument).
Hypothesis HAssignmentPattern :
  forall lhs rhs, P lhs -> P rhs -> P (AssignmentPattern lhs rhs).
Hypothesis HVariableDeclarator :
  forall id init,
    P id -> (forall n, init = Some n -> P n) -> P (VariableDeclarator id init).
Hypothesis HVariableDeclaration :
  forall kind declarations,
    Forall P declarations -> P (VariableDeclaration kind declarations).
Hypothesis HFunctionDeclaration :
  forall id params body,
    (forall n, id = Some n -> P n) -> Forall P params -> P body ->
    P (FunctionDeclaration id params body).
Hypothesis HClassDeclaration :
  forall id superClass body,
    (forall n, id = Some n -> P n) -> (forall n, superClass = Some n -> P n) ->
    P body -> P (ClassDeclaration id superClass body).
Hypothesis HExportSpecifier :
  forall local exported, P local -> P exported -> P (ExportSpecifier local exported).
Hypothesis HExportNamedDeclaration :
  forall declaration specifiers source,
    (forall n, declaration = Some n -> P n) -> Forall P specifiers ->
    (forall n, source = Some n -> P n) ->
    P (ExportNamedDeclaration declaration specifiers source).
Hypothesis HExportDefaultDeclaration :
  forall declaration, P declaration -> P (ExportDefaultDeclaration declaration).
Hypothesis HProgram : forall body, Forall P body -> P (Program body).
Hypothesis HOther : forall type children, Forall P children -> P (Other type children).

(** Induction over the tree, with the hypothesis for every child. *)
Lemma node_induction (n : node) : P n.
Proof.
  revert n. fix IH 1. intros n.
  assert (Hlist : forall l : list node, Forall P l).
  { intros l. induction l as [|a l IHl]; constructor; [apply IH|exact IHl]. }
  assert (Hopt : forall o : option node, forall m, o = Some m -> P m).
  { intros [m'|] m; [intros [= <-]; apply IH|discriminate]. }
  destruct n.
  - apply HIdentifier.
  - apply HArrayPattern.
    induction elements as [|e l IHl]; constructor; [apply Hopt|exact IHl].
  - apply HObjectPattern, Hlist.
  - apply HObjectProperty; apply IH.
  - apply HRestElement, IH.
  - apply HAssignmentPattern; apply IH.
  - apply HVariableDeclarator; [apply IH|apply Hopt].
  - apply HVariableDeclaration, Hlist.
  - apply HFunctionDeclaration; [apply Hopt|apply Hlist|apply IH].
  - apply HClassDeclaration; [apply Hopt|apply Hopt|apply IH].
  - apply HExportSpecifier; apply IH.
  - apply HExportNamedDeclaration; [apply Hopt|apply Hlist|apply Hopt].
  - apply HExportDefaultDeclaration, IH.
  - apply HProgram, Hlist.
  - apply HOther, Hlist.
Qed.

End NodeInduction.

Lemma flat_map_Forall_eq {A B} (f g : A -> list B) (l : list A) :
  Forall (fun x => f x = g x) l -> flat_map f l = flat_map g l.
Proof. induction 1 as [|x l Hx _ IH]; simpl; [done|]. by rewrite Hx, IH. Qed.

Lemma flat_map_Forall_nil {A B} (f : A -> list B) (l : list A) :
  Forall (fun x => f x = []) l -> flat_map f l = [].
Proof. induction 1 as [|x l Hx _ IH]; simpl; [done|]. by rewrite Hx, IH. Qed.

Lemma Forall_forallb_impl {A} (p : A -> bool) (Q : A -> Prop) (l : list A) :
  Forall (fun x => p x = true -> Q x) l -> forallb p l = true -> Forall Q l.
Proof.
  induction 1 as [|x l Hx _ IH]; simpl; [constructor|].
  intros [Hp Hl]%andb_true_iff. constructor; auto.
Qed.

Lemma on_nullable_agree {A} (p : node -> bool) (f g : node -> list A)
    (o : option node) :
  (forall n, o = Some n -> p n = true -> f n = g n) ->
  on_nullable_bool p o = true -> on_nullable f o = on_nullable g o.
Proof. destruct o as [n|]; simpl; [|done]. intros Hn Hp. by apply Hn. Qed.

Lemma on_nullable_nil {A} (p : node -> bool) (f : node -> list A)
    (o : option node) :
  (forall n, o = Some n -> p n = true -> f n = []) ->
  on_nullable_bool p o = true -> on_nullable f o = [].
Proof. destruct o as [n|]; simpl; [|done]. intros Hn Hp. by apply Hn. Qed.

(** On plain bindings the collector finds the bound names. *)
Lemma plain_binding_identifiers (n : node) :
  plain_binding n = true -> getModuleExportIdentifiers1 n = bound_names n.
Proof.
  induction n using node_induction; simpl; try done.
  - intros Hplain. apply flat_map_Forall_eq.
    apply (Forall_forallb_impl (on_nullable_bool plain_binding)); [|done].
    eapply Forall_impl; [eassumption|].
    intros [e|] He Hp; simpl in *; [by apply He|done].
  - intros Hplain. apply flat_map_Forall_eq.
    by apply (Forall_forallb_impl plain_binding).
  - intros Hplain. apply flat_map_Forall_eq.
    by apply (Forall_forallb_impl plain_binding).
  - by apply on_nullable_agree.
  - by apply on_nullable_agree.
Qed.

(** Where there is no named export, the traversal collects nothing. *)
Lemma visit_for_exports_none (n : node) :
  no_named_export n = true -> visit_for_exports n = [].
Proof.
  induction n using node_induction; simpl; try done;
    rewrite ?andb_true_iff; intros Hno;
    repeat match goal with
           | H : _ /\ _ |- _ => destruct H
           end;
    repeat match goal with
           | |- ?l ++ _ = [] => replace l with (@nil string); [simpl|symmetry]
           end;
    try (apply flat_map_Forall_nil;
         first [ by apply (Forall_forallb_impl no_named_export)
               | apply (Forall_forallb_impl (on_nullable_bool no_named_export));
                 [|done];
                 eapply Forall_impl; [eassumption|];
                 intros [e|] He Hp; simpl in *; [by apply He|done] ]);
    try (by apply (on_nullable_nil no_named_export));
    auto.
Qed.

Lemma specifier_identifiers (specifiers : list node) :
  forallb (fun s => match s with
                    | ExportSpecifier (Identifier _) (Identifier _) => true
                    | _ => false
                    end) specifiers = true ->
  getModuleExportIdentifiers (Some <$> specifiers)
  = flat_map (fun s => match s with
                       | ExportSpecifier _ (Identifier exported) => [exported]
                       | _ => []
                       end) specifiers
  /\ flat_map visit_for_exports specifiers = [].
Proof.
  unfold getModuleExportIdentifiers.
  induction specifiers as [|s specifiers IH]; [done|].
  csimpl. intros [Hs Hrest]%andb_true_iff.
  destruct (IH Hrest) as [-> ->].
  by destruct s as [| | | | | | | | | |[] []| | | |].
Qed.

Lemma plain_statement_exports (n : node) :
  plain_statement n = true ->
  visit_for_exports n = exported_names_of_statement n.
Proof.
  destruct n; try (by intros Hno; rewrite visit_for_exports_none).
  intros Hplain. simpl in Hplain. rewrite !andb_true_iff in Hplain.
  destruct Hplain as [[[Hplain Hdecl] Hspecs] Hsource].
  cbn [visit_for_exports exported_names_of_statement].
  destruct (specifier_identifiers _ Hspecs) as [-> ->].
  rewrite (on_nullable_nil no_named_export visit_for_exports declaration)
    by (done || intros; by apply visit_for_exports_none).
  rewrite (on_nullable_nil no_named_export visit_for_exports source)
    by (done || intros; by apply visit_for_exports_none).
  unfold getModuleExportIdentifiers. simpl. rewrite !app_nil_r.
  by rewrite (on_nullable_agree plain_binding _ bound_names)
    by (done || intros; by apply plain_binding_identifiers).
Qed.

(** On a module whose exported declarations have plain bindings only, the
    collector returns the exported names, each once. *)
Lemma plain_module_export_names (body : list node) :
  forallb plain_statement body = true ->
  getModuleExportNames (Program body)
  = js_set_of (exported_names (Program body)).
Proof.
  intros Hplain. unfold getModuleExportNames. f_equal. simpl.
  apply flat_map_Forall_eq, Forall_forall. intros s Hs.
  rewrite forallb_forall in Hplain.
  apply plain_statement_exports, Hplain. by apply list_elem_of_In.
Qed.

(** ** JavaScript maps *)

Section JsMapFacts.

Context {K V : Type} `{EqDecision K}.
Implicit Types (m : JsMap K V) (k : K) (v : V).

Lemma jsmap_get_set k v m k' :
  jsmap_get k' (jsmap_set k v m)
  = if decide (k' = k) then Some v else jsmap_get k' m.
Proof.
  induction m as [|[k0 v0] m IH]; simpl.
  - by repeat case_decide.
  - destruct (decide (k = k0)) as [->|Hne]; simpl.
    + by repeat case_decide; simplify_eq.
    + rewrite IH. by repeat case_decide; simplify_eq.
Qed.

Lemma jsmap_get_None k m : jsmap_get k m = None <-> k ∉ jsmap_keys m.
Proof.
  unfold jsmap_keys. induction m as [|[k0 v0] m IH]; simpl.
  - split; [intros _; apply not_elem_of_nil|done].
  - rewrite not_elem_of_cons. case_decide as Heq.
    + split; [done|]. by intros [? _].
    + rewrite IH. tauto.
Qed.

(** [set] keeps the order of the keys; a new key goes to the end. *)
Lemma jsmap_keys_set k v m :
  jsmap_keys (jsmap_set k v m)
  = if decide (k ∈ jsmap_keys m) then jsmap_keys m else jsmap_keys m ++ [k].
Proof.
  unfold jsmap_keys. induction m as [|[k0 v0] m IH]; csimpl.
  - reflexivity.
  - destruct (decide (k = k0)) as [->|Hne]; csimpl.
    + rewrite decide_True; [done|apply list_elem_of_here].
    + rewrite IH. case_decide as Hin.
      * rewrite decide_True; [done|by apply list_elem_of_further].
      * rewrite decide_False; [done|].
        by intros [?|?]%elem_of_cons.
Qed.

Lemma jsmap_keys_set_NoDup k v m :
  NoDup (jsmap_keys m) -> NoDup (jsmap_keys (jsmap_set k v m)).
Proof.
  intros Hm. rewrite jsmap_keys_set. case_decide as Hin; [done|].
  apply NoDup_app. split; [done|]. split; [|apply NoDup_singleton].
  by intros x Hx ->%list_elem_of_singleton.
Qed.

Lemma jsmap_elem_of_keys_set k v m k' :
  k' ∈ jsmap_keys (jsmap_set k v m) <-> k' = k \/ k' ∈ jsmap_keys m.
Proof.
  rewrite jsmap_keys_set. case_decide as Hin.
  - split; [tauto|]. by intros [->|?].
  - rewrite elem_of_app, list_elem_of_singleton. tauto.
Qed.

(** Two maps with the same keys in the same order and the same values are
    the same map. *)
Lemma jsmap_ext m1 m2 :
  NoDup (jsmap_keys m1) -> jsmap_keys m1 = jsmap_keys m2 ->
  (forall k, jsmap_get k m1 = jsmap_get k m2) -> m1 = m2.
Proof.
  unfold jsmap_keys. revert m2.
  induction m1 as [|[k1 v1] m1 IH]; intros [|[k2 v2] m2]; csimpl; try done.
  intros [Hnotin Hnodup]%NoDup_cons [= <- Hkeys] Hget.
  pose proof (Hget k1) as Hk1. rewrite !decide_True in Hk1 by done.
  injection Hk1 as <-. f_equal. apply IH; [done..|].
  intros k. specialize (Hget k). case_decide; [|done]. subst.
  pose proof (proj2 (jsmap_get_None k1 m1) Hnotin) as ->.
  symmetry. apply jsmap_get_None. unfold jsmap_keys. congruence.
Qed.

Lemma jsmap_set_same k v m : jsmap_get k m = Some v -> jsmap_set k v m = m.
Proof.
  induction m as [|[k0 v0] m IH]; simpl; [done|].
  case_decide; [by intros [= ->]; subst|]. intros Hget. by rewrite IH.
Qed.

End JsMapFacts.

(** After a run of [set] calls, a key has the value of the last call for
    it, or the value it had before when there was no call for it. *)
Lemma jsmap_get_fold_set {A K V} `{EqDecision K}
    (key : A -> K) (val : A -> V) (l : list A) (m : JsMap K V) (k : K) :
  jsmap_get k (fold_left (fun m x => jsmap_set (key x) (val x) m) l m)
  = match last (filter (fun x => key x = k) l) with
    | Some x => Some (val x)
    | None => jsmap_get k m
    end.
Proof.
  induction l as [|x l IH] using rev_ind; [done|].
  rewrite fold_left_app, filter_app. simpl.
  rewrite jsmap_get_set, filter_cons, filter_nil.
  destruct (decide (key x = k)) as [Hk|Hk].
  - rewrite last_snoc. by rewrite decide_True.
  - rewrite app_nil_r, <- IH. by rewrite decide_False.
Qed.

Lemma set_all_keys_NoDup (entries : list (string * option string))
    (results : JsMap string (option string)) :
  NoDup (jsmap_keys results) -> NoDup (jsmap_keys (set_all entries results)).
Proof.
  revert results. induction entries as [|e l IH]; intros results Hnodup; [done|].
  apply IH. by apply jsmap_keys_set_NoDup.
Qed.

(** Where the images of a list under [f] are pairwise different, an element
    is the only one with its image. *)
Lemma last_filter_NoDup {A B} `{EqDecision B} (f : A -> B) (l : list A) (x : A) :
  NoDup (f <$> l) -> x ∈ l -> last (filter (fun y => f y = f x) l) = Some x.
Proof.
  induction l as [|a l IH] using rev_ind; [by intros _ ?%elem_of_nil|].
  rewrite fmap_app, filter_app, filter_cons, filter_nil. simpl.
  intros [Hl [Hnot _]]%NoDup_app Hx.
  destruct (decide (f a = f x)) as [Heq|Hne].
  - rewrite last_snoc. f_equal.
    apply elem_of_app in Hx as [Hx|Hx%list_elem_of_singleton]; [|done].
    destruct (Hnot (f x)).
    + apply list_elem_of_fmap. by exists x.
    + rewrite <- Heq. apply list_elem_of_singleton. done.
  - rewrite app_nil_r. apply IH; [done|].
    apply elem_of_app in Hx as [Hx|Hx%list_elem_of_singleton]; [done|].
    by subst.
Qed.

(** ** [getResults] *)

(** One round of the loop writes what the specification says the record
    emits, in that order. *)
Lemma getResults_step_emits (results : JsMap string (option string))
    (r : ConversionResult) :
  getResults_step results r = set_all (emitted_entries r) results.
Proof.
  unfold getResults_step, emitted_entries, set_all.
  case_bool_decide; [done|].
  by destruct (deleteOriginal r), (output r).
Qed.

Lemma set_all_app (l1 l2 : list (string * option string))
    (results : JsMap string (option string)) :
  set_all (l1 ++ l2) results = set_all l2 (set_all l1 results).
Proof. apply fold_left_app. Qed.

Lemma fold_getResults_step (records : list ConversionResult)
    (results : JsMap string (option string)) :
  fold_left getResults_step records results
  = set_all (records ≫= emitted_entries) results.
Proof.
  revert results. induction records as [|r records IH]; intros results; [done|].
  simpl. rewrite IH, getResults_step_emits. csimpl. by rewrite set_all_app.
Qed.

Lemma emitted_entries_length (r : ConversionResult) :
  length (emitted_entries r) <= 2.
Proof.
  unfold emitted_entries. case_bool_decide; [simpl; lia|].
  destruct (deleteOriginal r), (output r); simpl; lia.
Qed.

(** Every entry of the map was written for some record. *)
Lemma set_all_get (entries : list (string * option string))
    (results : JsMap string (option string)) (path : string) (v : option string) :
  jsmap_get path (set_all entries results) = Some v ->
  (path, v) ∈ entries \/ jsmap_get path results = Some v.
Proof.
  revert results. induction entries as [|[p w] entries IH]; intros results.
  - by right.
  - simpl. intros [Hin|Hget]%IH; [left; by apply list_elem_of_further|].
    rewrite jsmap_get_set in Hget. case_decide; [|by right].
    injection Hget as <-. subst. left. apply list_elem_of_here.
Qed.

(** Writes to other paths leave a path as it is. *)
Lemma set_all_get_other (entries : list (string * option string))
    (results : JsMap string (option string)) (path : string) :
  Forall (fun entry => entry.1 <> path) entries ->
  jsmap_get path (set_all entries results) = jsmap_get path results.
Proof.
  revert results. induction entries as [|[p w] entries IH]; intros results;
    [done|].
  intros [Hne Hrest]%Forall_cons. simpl in *. rewrite IH by done.
  rewrite jsmap_get_set. by rewrite decide_False.
Qed.

(** An entry that a record emits: the tombstone for the original path or
    the content for the converted path, of a record that is not excluded. *)
Lemma elem_of_emitted_entries (r : ConversionResult)
    (path : string) (v : option string) :
  (path, v) ∈ emitted_entries r ->
  (originalUrl r ∉ excludeFromResults) /\
  ((deleteOriginal r = true /\ path = originalUrl r /\ v = None) \/
   (exists content,
       output r = Some content /\ path = convertedFilePath r /\
       v = Some content)).
Proof.
  unfold emitted_entries. case_bool_decide as Hexcluded;
    [by intros ?%elem_of_nil|].
  intros Hentry. split; [done|].
  destruct (deleteOriginal r), (output r) as [content|]; simpl in Hentry;
    decompose_list_elem_of; simplify_eq;
    first [by left | by right; eexists].
Qed.

(** Records that neither come from a path nor go to it write nothing to
    it. *)
Lemma no_write_to_path (records : list ConversionResult) (path : string) :
  Forall (fun r => originalUrl r <> path /\ convertedFilePath r <> path) records ->
  Forall (fun entry => entry.1 <> path) (records ≫= emitted_entries).
Proof.
  intros Hrecords. apply Forall_forall. intros [p v] Hentry.
  apply list_elem_of_bind in Hentry as (r & Hentry & Hr).
  destruct (proj1 (Forall_forall _ _) Hrecords r Hr) as [Ho Hc].
  apply elem_of_emitted_entries in Hentry
    as [_ [(_ & -> & _)|(content & _ & -> & _)]]; done.
Qed.

(** What a path has at the end is what it has after the round of a record,
    if no later record writes to it. *)
Lemma getResults_get_after_round (before after : JsMap string ConversionResult)
    (url : string) (r : ConversionResult) (path : string) :
  Forall (fun r' => originalUrl r' <> path /\ convertedFilePath r' <> path)
    (jsmap_values after) ->
  jsmap_get path (getResults (before ++ (url, r) :: after))
  = jsmap_get path (getResults_step (getResults before) r).
Proof.
  intros Hafter. unfold getResults, jsmap_values.
  rewrite fmap_app, fold_left_app. csimpl.
  rewrite fold_getResults_step, set_all_get_other; [done|].
  by apply no_write_to_path.
Qed.

Lemma getResults_get (cache : JsMap string ConversionResult) (path : string) :
  jsmap_get path (getResults cache)
  = last_entry path (jsmap_values cache ≫= emitted_entries).
Proof.
  unfold getResults. rewrite fold_getResults_step.
  unfold set_all, last_entry.
  rewrite (jsmap_get_fold_set fst snd). by destruct (last _).
Qed.

(** C8. [getResults] goes through the records of the cache once, in their
    order, and writes for each record the entries it emits: none for a
    record whose original URL is excluded, whatever the record holds;
    otherwise the tombstone for the original path if the record is marked
    for deletion, then the content for the converted path if there is
    content.  A record emits at most two entries; an excluded record can be
    dropped from the cache without changing the result; every entry of the
    result was emitted by a record of the cache.

    In the returned map, a path has the value of the last entry emitted for
    it.  So the original path of a record that is marked for deletion has
    the tombstone, and the converted path of a record with content has the
    content, unless the record is excluded or a later write goes to the
    path; a path that only excluded records come from or go to is not in
    the map.  For a cache of one record the map is: empty; the tombstone;
    the content; the tombstone and then the content; or, where the two
    paths are the same, the content alone. *)
Theorem getResults_emits_per_record (cache : JsMap string ConversionResult) :
  getResults cache = set_all (jsmap_values cache ≫= emitted_entries) [] /\
  (forall r,
      emitted_entries r
      = if bool_decide (originalUrl r ∈ excludeFromResults) then []
        else (if deleteOriginal r then [(originalUrl r, None)] else [])
             ++ match output r with
                | Some content => [(convertedFilePath r, Some content)]
                | None => []
                end) /\
  (forall r, length (emitted_entries r) <= 2) /\
  (forall before after url r,
      cache = before ++ (url, r) :: after ->
      originalUrl r ∈ excludeFromResults ->
      getResults cache = getResults (before ++ after)) /\
  (forall path v,
      jsmap_get path (getResults cache) = Some v ->
      exists r, r ∈ jsmap_values cache /\ (path, v) ∈ emitted_entries r) /\
  (forall path,
      jsmap_get path (getResults cache)
      = last_entry path (jsmap_values cache ≫= emitted_entries)) /\
  (forall before url r after,
      cache = before ++ (url, r) :: after ->
      originalUrl r ∉ excludeFromResults ->
      deleteOriginal r = true ->
      (forall content,
          output r = Some content -> convertedFilePath r <> originalUrl r) ->
      Forall (fun r' => originalUrl r' <> originalUrl r /\
                        convertedFilePath r' <> originalUrl r)
        (jsmap_values after) ->
      jsmap_get (originalUrl r) (getResults cache) = Some None) /\
  (forall before url r after content,
      cache = before ++ (url, r) :: after ->
      originalUrl r ∉ excludeFromResults ->
      output r = Some content ->
      Forall (fun r' => originalUrl r' <> convertedFilePath r /\
                        convertedFilePath r' <> convertedFilePath r)
        (jsmap_values after) ->
      jsmap_get (convertedFilePath r) (getResults cache) = Some (Some content)) /\
  (forall path,
      Forall (fun r => originalUrl r = path \/ convertedFilePath r = path ->
                       originalUrl r ∈ excludeFromResults)
        (jsmap_values cache) ->
      jsmap_get path (getResults cache) = None) /\
  (forall url r,
      getResults [(url, r)]
      = if bool_decide (originalUrl r ∈ excludeFromResults) then []
        else match deleteOriginal r, output r with
             | true, Some content =>
                 if decide (convertedFilePath r = originalUrl r)
                 then [(originalUrl r, Some content)]
                 else [(originalUrl r, None);
                       (convertedFilePath r, Some content)]
             | true, None => [(originalUrl r, None)]
             | false, Some content => [(convertedFilePath r, Some content)]
             | false, None => []
             end).
Proof.
  assert (Hfrom : forall path v,
      jsmap_get path (getResults cache) = Some v ->
      exists r, r ∈ jsmap_values cache /\ (path, v) ∈ emitted_entries r).
  { intros path v. unfold getResults. rewrite fold_getResults_step.
    intros [Hin|Hget]%set_all_get; [|done].
    apply list_elem_of_bind in Hin as (r & Hentry & Hr). by exists r. }
  split; [apply fold_getResults_step|].
  split; [done|].
  split; [apply emitted_entries_length|].
  split.
  { intros before after url r -> Hexcluded.
    unfold getResults, jsmap_values.
    rewrite !fmap_app, !fold_left_app. csimpl.
    unfold getResults_step at 2. by rewrite bool_decide_eq_true_2. }
  split; [exact Hfrom|].
  split; [apply getResults_get|].
  split.
  { intros before url r after -> Hincluded Hdelete Hcontent Hafter.
    rewrite getResults_get_after_round by done.
    unfold getResults_step.
    rewrite bool_decide_eq_false_2, Hdelete by done.
    destruct (output r) as [content|] eqn:Houtput.
    - rewrite !jsmap_get_set.
      destruct (decide (originalUrl r = convertedFilePath r)) as [Heq|_];
        [by destruct (Hcontent content eq_refl)|].
      by destruct (decide (originalUrl r = originalUrl r)).
    - rewrite jsmap_get_set.
      by destruct (decide (originalUrl r = originalUrl r)). }
  split.
  { intros before url r after content -> Hincluded Houtput Hafter.
    rewrite getResults_get_after_round by done.
    unfold getResults_step.
    rewrite bool_decide_eq_false_2, Houtput by done.
    rewrite jsmap_get_set.
    by destruct (decide (convertedFilePath r = convertedFilePath r)). }
  split.
  { intros path Hexcluded.
    destruct (jsmap_get path (getResults cache)) as [v|] eqn:Hget; [|done].
    destruct (Hfrom path v Hget) as (r & Hr & Hentry).
    pose proof (proj1 (Forall_forall _ _) Hexcluded r Hr) as Hr'.
    apply elem_of_emitted_entries in Hentry
      as [Hincluded [(_ & -> & _)|(content & _ & -> & _)]];
      destruct Hincluded; apply Hr'; first [by left | by right]. }
  intros url r. unfold getResults, getResults_step. simpl.
  case_bool_decide; [done|].
  destruct (deleteOriginal r), (output r) as [content|]; simpl; try done.
  destruct (decide (convertedFilePath r = originalUrl r)) as [->|]; done.
Qed.

(** A cache with a page that is moved to a script, a shim that is
    excluded although it has content, and a page that is deleted. *)
Lemma getResults_emits_per_record_witness :
  getResults
    [("src/w.html",
      {| originalUrl := "src/w.html";
         convertedFilePath := "src/w.js";
         deleteOriginal := true;
         output := Some "export const w = 1;" |});
     ("shadycss/entrypoints/apply-shim.js",
      {| originalUrl := "shadycss/entrypoints/apply-shim.js";
         convertedFilePath := "shadycss/entrypoints/apply-shim.js";
         deleteOriginal := true;
         output := Some "export {};" |});
     ("src/old.html",
      {| originalUrl := "src/old.html";
         convertedFilePath := "src/old.html";
         deleteOriginal := true;
         output := None |})]
  = [("src/w.html", None); ("src/w.js", Some "export const w = 1;");
     ("src/old.html", None)] /\
  jsmap_get "shadycss/entrypoints/apply-shim.js"
    (getResults
       [("src/w.html",
         {| originalUrl := "src/w.html";
            convertedFilePath := "src/w.js";
            deleteOriginal := true;
            output := Some "export const w = 1;" |});
        ("shadycss/entrypoints/apply-shim.js",
         {| originalUrl := "shadycss/entrypoints/apply-shim.js";
            convertedFilePath := "shadycss/entrypoints/apply-shim.js";
            deleteOriginal := true;
            output := Some "export {};" |});
        ("src/old.html",
         {| originalUrl := "src/old.html";
            convertedFilePath := "src/old.html";
            deleteOriginal := true;
            output := None |})])
  = None.
Proof.
  split.
  - rewrite (proj1 (getResults_emits_per_record _)). reflexivity.
  - refine (proj1 (proj2 (proj2 (proj2 (proj2 (proj2 (proj2 (proj2 (proj2
              (getResults_emits_per_record _)))))))))
              "shadycss/entrypoints/apply-shim.js" _).
    unfold jsmap_values. rewrite !fmap_cons, fmap_nil.
    repeat (apply Forall_cons; split;
            [simpl; intros [Heq|Heq];
             first [discriminate Heq
                   | apply (bool_decide_unpack _); reflexivity]|]).
    constructor.
Defined.

(** C10, as the code has it.  For a record that is marked for deletion, has
    content and is not excluded, the loop writes the tombstone first and the
    content second: where both paths are new and differ, the tombstone comes
    before the content in the returned map.  Where the converted path is the
    original path, the content replaces the tombstone: the map has the
    content at that path after the round, and at the end of [getResults] if
    no later record of the cache writes to the path.  In a cache that is
    keyed by original URL, a later record can only write content to the
    path: at the end the path has content, of this record or of a later one
    that is converted to the same path, and not the tombstone. *)
Theorem tombstone_before_content (r : ConversionResult) (content : string) :
  deleteOriginal r = true ->
  output r = Some content ->
  originalUrl r ∉ excludeFromResults ->
  (forall results,
      getResults_step results r
      = jsmap_set (convertedFilePath r) (Some content)
          (jsmap_set (originalUrl r) None results)) /\
  (forall results,
      convertedFilePath r <> originalUrl r ->
      originalUrl r ∉ jsmap_keys results ->
      convertedFilePath r ∉ jsmap_keys results ->
      jsmap_keys (getResults_step results r)
      = jsmap_keys results ++ [originalUrl r; convertedFilePath r]) /\
  (convertedFilePath r = originalUrl r ->
   (forall results,
       jsmap_get (originalUrl r) (getResults_step results r)
       = Some (Some content)) /\
   (forall before url after,
       Forall (fun r' => originalUrl r' <> originalUrl r /\
                         convertedFilePath r' <> originalUrl r)
         (jsmap_values after) ->
       jsmap_get (originalUrl r) (getResults (before ++ (url, r) :: after))
       = Some (Some content)) /\
   (forall before url after,
       keyed_by_original_url (before ++ (url, r) :: after) ->
       exists content',
         jsmap_get (originalUrl r) (getResults (before ++ (url, r) :: after))
         = Some (Some content') /\
         (content' = content \/
          exists r', r' ∈ jsmap_values after /\
                     convertedFilePath r' = originalUrl r /\
                     output r' = Some content'))).
Proof.
  intros Hdelete Houtput Hincluded.
  assert (Hstep : forall results,
             getResults_step results r
             = jsmap_set (convertedFilePath r) (Some content)
                 (jsmap_set (originalUrl r) None results)).
  { intros results. unfold getResults_step.
    by rewrite bool_decide_eq_false_2, Hdelete, Houtput. }
  split; [exact Hstep|]. split.
  - intros results Hdiffer Horiginal Hconverted.
    rewrite Hstep, !jsmap_keys_set.
    rewrite (decide_False (P := originalUrl r ∈ jsmap_keys results)) by done.
    rewrite decide_False.
    + by rewrite <- app_assoc.
    + rewrite elem_of_app, list_elem_of_singleton. tauto.
  - intros Hsame.
    assert (Hround : forall results,
               jsmap_get (originalUrl r) (getResults_step results r)
               = Some (Some content)).
    { intros results. rewrite Hstep, jsmap_get_set. by rewrite decide_True. }
    split; [exact Hround|]. split.
    + intros before url after Hafter.
      rewrite getResults_get_after_round by done. apply Hround.
    + intros before url after [Hnodup Hkeys].
      unfold getResults, jsmap_values.
      rewrite fmap_app, fold_left_app. csimpl.
      rewrite fold_getResults_step. unfold set_all.
      rewrite (jsmap_get_fold_set fst snd).
      destruct (last _) as [[path v]|] eqn:Hlast; simpl;
        [|exists content; split; [apply Hround|by left]].
      apply last_Some_elem_of, list_elem_of_filter in Hlast as [Hpath Hentry].
      simpl in Hpath. subst path.
      apply list_elem_of_bind in Hentry as (r' & Hentry & Hr').
      apply elem_of_emitted_entries in Hentry
        as [_ [(_ & Horiginal & _)|(content' & Houtput' & Hconverted & ->)]].
      * exfalso.
        apply list_elem_of_fmap in Hr' as ([url' r''] & -> & Hr').
        simpl in Horiginal.
        apply Forall_app in Hkeys as [_ [Hr Hafter]%Forall_cons].
        pose proof (proj1 (Forall_forall _ _) Hafter _ Hr') as Hurl'.
        simpl in Hr, Hurl'.
        unfold jsmap_keys in Hnodup. rewrite fmap_app in Hnodup.
        apply NoDup_app in Hnodup as (_ & _ & Hnodup).
        rewrite fmap_cons in Hnodup.
        apply NoDup_cons in Hnodup as [Hnot _].
        apply Hnot. apply list_elem_of_fmap. exists (url', r'').
        split; [|done]. simpl. congruence.
      * exists content'. split; [done|]. right. by exists r'.
Qed.

Lemma tombstone_before_content_witness :
  let moved :=
    {| originalUrl := "src/w.html";
       convertedFilePath := "src/w.js";
       deleteOriginal := true;
       output := Some "export const w = 1;" |} in
  jsmap_keys (getResults_step [] moved) = ["src/w.html"; "src/w.js"] /\
  jsmap_get "src/x.js"
    (getResults [("src/w.html", moved); ("src/x.js", replaced_in_place)])
  = Some (Some "export {};").
Proof.
  intros moved. split.
  - refine (proj1 (proj2 (tombstone_before_content moved
                            "export const w = 1;" _ _ _)) [] _ _ _).
    + reflexivity.
    + reflexivity.
    + apply (bool_decide_unpack _). reflexivity.
    + discriminate.
    + apply not_elem_of_nil.
    + apply not_elem_of_nil.
  - refine (proj1 (proj2 (proj2 (proj2 (tombstone_before_content
                                          replaced_in_place
                                          "export {};" _ _ _)) _))
              [("src/w.html", moved)] "src/x.js" [] _).
    + reflexivity.
    + reflexivity.
    + apply (bool_decide_unpack _). reflexivity.
    + reflexivity.
    + constructor.
Defined.

(** C10 as the specification words it fails for a record whose original
    URL is excluded: the shim is marked for deletion, has content and is
    converted in place, and the returned map has nothing at its path.  And
    the content at the path need not be the record's: a page that is
    converted to the path of a script that was converted in place before
    replaces the content of the script. *)
Lemma excluded_record_leaves_no_content :
  let shim :=
    {| originalUrl := "shadycss/entrypoints/apply-shim.js";
       convertedFilePath := "shadycss/entrypoints/apply-shim.js";
       deleteOriginal := true;
       output := Some "export {};" |} in
  let page :=
    {| originalUrl := "src/x.html";
       convertedFilePath := "src/x.js";
       deleteOriginal := true;
       output := Some "import './y.js';" |} in
  (deleteOriginal shim = true /\ output shim = Some "export {};" /\
   convertedFilePath shim = originalUrl shim) /\
  getResults [("shadycss/entrypoints/apply-shim.js", shim)] = [] /\
  jsmap_get "shadycss/entrypoints/apply-shim.js"
    (getResults [("shadycss/entrypoints/apply-shim.js", shim)]) = None /\
  keyed_by_original_url [("src/x.js", replaced_in_place); ("src/x.html", page)] /\
  jsmap_get "src/x.js"
    (getResults [("src/x.js", replaced_in_place); ("src/x.html", page)])
  = Some (Some "import './y.js';").
Proof.
  intros shim page. repeat split; try reflexivity.
  - apply (bool_decide_unpack _). reflexivity.
  - by repeat constructor.
Qed.

(** ** [convertDocument] *)

Lemma store_all_keys_mono (records : list ConversionResult)
    (results : JsMap string ConversionResult) (k : string) :
  k ∈ jsmap_keys results -> k ∈ jsmap_keys (fold_left store records results).
Proof.
  revert results. induction records as [|r records IH]; intros results; [done|].
  intros Hk. simpl. apply IH. unfold store.
  apply jsmap_elem_of_keys_set. by right.
Qed.

Lemma store_all_keys_stored (records : list ConversionResult)
    (results : JsMap string ConversionResult) (r : ConversionResult) :
  r ∈ records -> originalUrl r ∈ jsmap_keys (fold_left store records results).
Proof.
  revert results. induction records as [|r0 records IH]; intros results.
  - by intros ?%elem_of_nil.
  - intros [->|Hin]%elem_of_cons; simpl; [|by apply IH].
    apply store_all_keys_mono. unfold store.
    apply jsmap_elem_of_keys_set. by left.
Qed.

(** Storing records whose keys are all present keeps the keys as they are. *)
Lemma store_all_keys_present (records : list ConversionResult)
    (results : JsMap string ConversionResult) :
  Forall (fun r => originalUrl r ∈ jsmap_keys results) records ->
  jsmap_keys (fold_left store records results) = jsmap_keys results.
Proof.
  revert results. induction records as [|r records IH]; intros results; [done|].
  intros [Hr Hrest]%Forall_cons. simpl.
  assert (Hkeys : jsmap_keys (store results r) = jsmap_keys results).
  { unfold store. rewrite jsmap_keys_set. by rewrite decide_True. }
  rewrite IH; [done|]. by rewrite Hkeys.
Qed.

Lemma store_all_NoDup (records : list ConversionResult)
    (results : JsMap string ConversionResult) :
  NoDup (jsmap_keys results) ->
  NoDup (jsmap_keys (fold_left store records results)).
Proof.
  revert results. induction records as [|r records IH]; intros results; [done|].
  intros Hnodup. simpl. apply IH. by apply jsmap_keys_set_NoDup.
Qed.

(** The value at a key after the records are stored depends on the value
    before only if no record has the key. *)
Lemma store_all_get (records : list ConversionResult)
    (m1 m2 : JsMap string ConversionResult) (k : string) :
  jsmap_get k m1 = jsmap_get k m2 \/ k ∈ originalUrl <$> records ->
  jsmap_get k (fold_left store records m1)
  = jsmap_get k (fold_left store records m2).
Proof.
  revert m1 m2. induction records as [|r records IH]; intros m1 m2.
  - intros [?|?%elem_of_nil]; done.
  - intros Hk. simpl. apply IH. unfold store. rewrite !jsmap_get_set.
    case_decide as Heq; [by left|].
    destruct Hk as [?|Hk]; [by left|]. right.
    by apply elem_of_cons in Hk as [?|?].
Qed.

Lemma store_all_get_other (records : list ConversionResult)
    (results : JsMap string ConversionResult) (k : string) :
  k ∉ originalUrl <$> records ->
  jsmap_get k (fold_left store records results) = jsmap_get k results.
Proof.
  revert results. induction records as [|r records IH]; intros results; [done|].
  csimpl. intros [Hne Hrest]%not_elem_of_cons. rewrite IH by done.
  unfold store. rewrite jsmap_get_set. by rewrite decide_False.
Qed.

(** Storing the same records a second time changes nothing. *)
Lemma store_all_twice (records : list ConversionResult)
    (results : JsMap string ConversionResult) :
  NoDup (jsmap_keys results) ->
  fold_left store records (fold_left store records results)
  = fold_left store records results.
Proof.
  intros Hnodup. apply jsmap_ext.
  - by do 2 apply store_all_NoDup.
  - apply store_all_keys_present, Forall_forall.
    intros r Hr. by apply store_all_keys_stored.
  - intros k. apply store_all_get.
    destruct (decide (k ∈ originalUrl <$> records)) as [Hin|Hnotin]; [by right|].
    left. by apply store_all_get_other.
Qed.

(** Storing records that are in place changes nothing. *)
Lemma store_all_in_place (records : list ConversionResult)
    (results : JsMap string ConversionResult) :
  Forall (fun r => jsmap_get (originalUrl r) results = Some r) records ->
  fold_left store records results = results.
Proof.
  induction records as [|r records IH]; [done|].
  intros [Hr Hrest]%Forall_cons. simpl.
  unfold store at 2. rewrite jsmap_set_same by done. by apply IH.
Qed.

(** After records are stored, a URL has the last of them that has this
    original URL, or what it had before when none of them has it. *)
Lemma store_all_get_last (records : list ConversionResult)
    (results : JsMap string ConversionResult) (url : string) :
  jsmap_get url (fold_left store records results)
  = match last_record url records with
    | Some r => Some r
    | None => jsmap_get url results
    end.
Proof.
  unfold last_record.
  exact (jsmap_get_fold_set originalUrl (fun r => r) records results url).
Qed.

Section ConverterFacts.

Context `{Collaborators}.

(** A call either throws for want of a classification, the cache as it
    was, or stores the records of the document. *)
Lemma convertDocument_eq (document : Document) (this : ProjectConverter) :
  let scanner' := scanDocument (scanner this) document in
  let console' :=
    console_assert (bool_decide ("html-document" ∈ kinds document))
      "convertDocument() must be called with an HTML document, but got [object Set]"
      (console this) in
  convertDocument document this
  = match scanned_file scanner' (getDocumentUrl document) with
    | None =>
        (Throws ("File not found during scan: " +:+ getDocumentUrl document),
         {| scanner := scanner'; results := results this; console := console' |})
    | Some _ =>
        (Returns,
         {| scanner := scanner';
            results := fold_left store (stored_records document scanner')
                         (results this);
            console := console' |})
    end.
Proof.
  unfold convertDocument, stored_records. simpl.
  destruct (scanned_file _ _) as [[]|]; done.
Qed.

(** Whatever the kinds of the document, a call for a document that the scan
    has classified returns. *)
Lemma convertDocument_returns_when_classified (document : Document)
    (this : ProjectConverter) (type : ScanResultType) :
  scanned_file (scanDocument (scanner this) document) (getDocumentUrl document)
  = Some type ->
  (convertDocument document this).1 = Returns.
Proof. intros Hfile. rewrite convertDocument_eq. simpl. by rewrite Hfile. Qed.

Lemma convertDocuments_app (before rest : list Document)
    (this this' : ProjectConverter) :
  convertDocuments before this = (Returns, this') ->
  convertDocuments (before ++ rest) this = convertDocuments rest this'.
Proof.
  revert this. induction before as [|d before IH]; intros this; simpl.
  - by intros [= ->].
  - destruct (convertDocument d this) as [[|message] this1]; [apply IH|done].
Qed.

(** C7. A document without classification in the scan results makes
    [convertDocument] throw the error [File not found during scan:] with the
    URL of the document; the results cache is as it was before the call.
    Nothing catches the error: the loop of [convertPackage] ends with it,
    at the first such document, and so does [convertPackage]. *)
Theorem unclassified_document_throws (document : Document)
    (this : ProjectConverter) :
  scanned_file (scanDocument (scanner this) document) (getDocumentUrl document)
  = None ->
  exists this',
    convertDocument document this
    = (Throws ("File not found during scan: " +:+ getDocumentUrl document), this') /\
    results this' = results this /\
    (forall before rest this0,
        convertDocuments before this0 = (Returns, this) ->
        convertDocuments (before ++ document :: rest) this0
        = (Throws ("File not found during scan: " +:+ getDocumentUrl document),
           this')) /\
    (forall name this0 before rest,
        getPackageDocuments (scanPackage (scanner this0) name) name
        = before ++ document :: rest ->
        convertDocuments before
          {| scanner := scanPackage (scanner this0) name;
             results := results this0; console := console this0 |}
        = (Returns, this) ->
        convertPackage name this0
        = (Throws ("File not found during scan: " +:+ getDocumentUrl document),
           this')).
Proof.
  intros Hfile. rewrite convertDocument_eq. simpl. rewrite Hfile.
  eexists. split; [reflexivity|]. split; [reflexivity|].
  assert (Hloop : forall before rest this0,
             convertDocuments before this0 = (Returns, this) ->
             convertDocuments (before ++ document :: rest) this0
             = (Throws ("File not found during scan: " +:+ getDocumentUrl document),
                {| scanner := scanDocument (scanner this) document;
                   results := results this;
                   console :=
                     console_assert
                       (bool_decide ("html-document" ∈ kinds document))
                       "convertDocument() must be called with an HTML document, but got [object Set]"
                       (console this) |})).
  { intros before rest this0 Hbefore.
    rewrite (convertDocuments_app _ _ _ _ Hbefore). simpl.
    rewrite convertDocument_eq. simpl. by rewrite Hfile. }
  split; [exact Hloop|].
  intros name this0 before rest Hdocs Hbefore.
  unfold convertPackage. rewrite Hdocs. by apply Hloop.
Qed.

(** Under a scan that the documents of a list leave as it is, a loop of
    conversions that returns has found every document classified and has
    stored the records of the documents, in their order; the scanner is as
    it was. *)
Lemma convertDocuments_settled (documents : list Document)
    (this this' : ProjectConverter) :
  Forall (fun d => scanDocument (scanner this) d = scanner this) documents ->
  convertDocuments documents this = (Returns, this') ->
  scanner this' = scanner this /\
  results this'
  = fold_left store (documents ≫= fun d => stored_records d (scanner this))
      (results this) /\
  Forall (fun d => is_Some (scanned_file (scanner this) (getDocumentUrl d)))
    documents.
Proof.
  revert this. induction documents as [|d l IH]; intros this Hsettled.
  - intros [= <-]. done.
  - apply Forall_cons in Hsettled as [Hd Hl]. simpl.
    rewrite convertDocument_eq. simpl. rewrite Hd.
    destruct (scanned_file (scanner this) (getDocumentUrl d))
      as [type|] eqn:Hfile; [|done].
    intros Hrest. apply IH in Hrest as (Hs & Hr & Hc); [|done].
    simpl in *. split; [done|]. split.
    + rewrite Hr. csimpl. by rewrite fold_left_app.
    + constructor; [by eexists|done].
Qed.

(** C5, as the code has it.  [convertDocument] does not look into the
    cache: a call that returns stores the records that the document
    converter produces for the scan results of that moment, each under its
    original URL, so that a URL has the last of these records that has it,
    and any other URL what it had.  If the records are in the cache as they
    are, the cache is unchanged.  That is so when the document is converted
    again directly after its conversion and the second scan of the document
    leaves the scanner as it is; and when [convertPackage] has returned, a
    second scan of a document of the package leaves the scanner as it is,
    the records of the package have original URLs that all differ, and
    [convertDocument] is called for a document of the package: the call
    returns, adds no entry and changes none.  But where the cache has
    another record under the URL than the one the converter produces now,
    the call replaces it. *)
Theorem reconversion_with_unchanged_scan (document : Document)
    (this : ProjectConverter) :
  (forall this1,
      convertDocument document this = (Returns, this1) ->
      forall url,
        jsmap_get url (results this1)
        = match last_record url
                  (stored_records document
                     (scanDocument (scanner this) document)) with
          | Some r => Some r
          | None => jsmap_get url (results this)
          end) /\
  (Forall (fun r => jsmap_get (originalUrl r) (results this) = Some r)
     (stored_records document (scanDocument (scanner this) document)) ->
   results (convertDocument document this).2 = results this) /\
  (forall this1,
      NoDup (jsmap_keys (results this)) ->
      convertDocument document this = (Returns, this1) ->
      scanDocument (scanner this1) document = scanner this1 ->
      exists this2,
        convertDocument document this1 = (Returns, this2) /\
        results this2 = results this1 /\
        scanner this2 = scanner this1 /\
        NoDup (jsmap_keys (results this2))) /\
  (forall matchPackageName before rest this1,
      getPackageDocuments (scanPackage (scanner this) matchPackageName)
        matchPackageName
      = before ++ document :: rest ->
      Forall (fun d =>
                scanDocument (scanPackage (scanner this) matchPackageName) d
                = scanPackage (scanner this) matchPackageName)
        (before ++ document :: rest) ->
      NoDup (originalUrl <$>
               ((before ++ document :: rest) ≫= fun d =>
                  stored_records d
                    (scanPackage (scanner this) matchPackageName))) ->
      convertPackage matchPackageName this = (Returns, this1) ->
      exists this2,
        convertDocument document this1 = (Returns, this2) /\
        results this2 = results this1 /\
        scanner this2 = scanner this1) /\
  (forall this1 r cached,
      convertDocument document this = (Returns, this1) ->
      last_record (originalUrl r)
        (stored_records document (scanDocument (scanner this) document))
      = Some r ->
      jsmap_get (originalUrl r) (results this) = Some cached ->
      cached <> r ->
      jsmap_get (originalUrl r) (results this1) = Some r /\
      results this1 <> results this).
Proof.
  assert (Hstores : forall this1,
      convertDocument document this = (Returns, this1) ->
      forall url,
        jsmap_get url (results this1)
        = match last_record url
                  (stored_records document
                     (scanDocument (scanner this) document)) with
          | Some r => Some r
          | None => jsmap_get url (results this)
          end).
  { intros this1. rewrite convertDocument_eq. simpl.
    destruct (scanned_file _ _); [|done].
    intros [= <-] url. simpl. apply store_all_get_last. }
  split; [exact Hstores|]. split.
  { intros Hcached. rewrite convertDocument_eq. simpl.
    destruct (scanned_file _ _); simpl; [|done]. by apply store_all_in_place. }
  split.
  { intros this1 Hnodup Hfirst Hsettled.
    rewrite convertDocument_eq in Hfirst. simpl in Hfirst.
    destruct (scanned_file (scanDocument (scanner this) document) _)
      as [type|] eqn:Hfile; [|done].
    injection Hfirst as <-. simpl in Hsettled.
    rewrite convertDocument_eq. simpl. rewrite Hsettled, Hfile.
    eexists. split; [reflexivity|]. simpl.
    split; [by apply store_all_twice|]. split; [done|].
    rewrite store_all_twice by done. by apply store_all_NoDup. }
  split.
  { intros name before rest this1 Hdocs Hsettled Hnodup Hpackage.
    unfold convertPackage in Hpackage. rewrite Hdocs in Hpackage.
    apply convertDocuments_settled in Hpackage as (Hs & Hr & Hclassified);
      [|done].
    simpl in Hs, Hr, Hclassified.
    apply Forall_app in Hsettled as [_ [Hsettled _]%Forall_cons].
    apply Forall_app in Hclassified as [_ [[type Hfile] _]%Forall_cons].
    rewrite convertDocument_eq. simpl. rewrite Hs, Hsettled, Hfile.
    eexists. split; [reflexivity|]. simpl. split; [|done].
    apply store_all_in_place, Forall_forall. intros r Hin.
    rewrite Hr, store_all_get_last. unfold last_record.
    rewrite (last_filter_NoDup originalUrl); [done|done|].
    apply list_elem_of_bind. exists document. split; [done|].
    apply elem_of_app. right. apply elem_of_cons. by left. }
  intros this1 r cached Hfirst Hlast Hcached Hdiffer.
  pose proof (Hstores this1 Hfirst (originalUrl r)) as Hget.
  rewrite Hlast in Hget. split; [done|].
  intros Hsame. rewrite Hsame, Hcached in Hget. congruence.
Qed.

End ConverterFacts.

(** The stray file alone, and as the second document of its package. *)
Lemma unclassified_document_throws_witness :
  (exists this',
      convertDocument Sample.stray Sample.fresh_converter
      = (Throws "File not found during scan: stray.html", this') /\
      results this' = []) /\
  (convertPackage "tools" Sample.fresh_converter).1
  = Throws "File not found during scan: stray.html".
Proof.
  split.
  - destruct (@unclassified_document_throws Sample.collaborators
                Sample.stray Sample.fresh_converter)
      as (this' & Hthrows & Hresults & _).
    + reflexivity.
    + exists this'. split; [exact Hthrows|exact Hresults].
  - destruct (@unclassified_document_throws Sample.collaborators
                Sample.stray
                (@convertDocument Sample.collaborators
                   Sample.script Sample.fresh_converter).2)
      as (this' & _ & _ & _ & Hpackage).
    + reflexivity.
    + rewrite (Hpackage "tools" Sample.fresh_converter
                 ([Sample.script] : list Sample.document) []);
        reflexivity.
Defined.

(** A page converted twice in a row, and a page converted again after its
    package. *)
Lemma reconversion_with_unchanged_scan_witness :
  let this1 := (convertDocument Sample.page_a Sample.fresh_converter).2 in
  let package := (convertPackage "app" Sample.fresh_converter).2 in
  jsmap_get "a.html" (results this1)
  = Some (Sample.as_module Sample.page_a ["App.a"]) /\
  results (convertDocument Sample.page_a this1).2 = results this1 /\
  (exists this2,
      convertDocument Sample.page_a this1 = (Returns, this2) /\
      results this2 = results this1) /\
  jsmap_keys (results package) = ["a.html"; "old.html"] /\
  (exists this2,
      convertDocument Sample.page_a package = (Returns, this2) /\
      results this2 = results package).
Proof.
  intros this1 package.
  destruct (@reconversion_with_unchanged_scan Sample.collaborators
              Sample.page_a Sample.fresh_converter)
    as (Hstores & _ & Hagain & Hpackage & _).
  split; [exact (Hstores this1 eq_refl "a.html")|].
  split.
  { apply (proj1 (proj2 (@reconversion_with_unchanged_scan
                           Sample.collaborators Sample.page_a this1))).
    repeat constructor. }
  split.
  { destruct (Hagain this1) as (this2 & Hsecond & Hresults & _).
    - apply (bool_decide_unpack _). reflexivity.
    - reflexivity.
    - reflexivity.
    - exists this2. split; [exact Hsecond|exact Hresults]. }
  split; [reflexivity|].
  destruct (Hpackage "app" [] ([Sample.old_page] : list Sample.document) package)
    as (this2 & Hsecond & Hresults & _).
  - reflexivity.
  - repeat constructor.
  - apply (bool_decide_unpack _). vm_compute. exact I.
  - reflexivity.
  - exists this2. split; [exact Hsecond|exact Hresults].
Defined.

(** C5 as the specification words it fails when the scan results have
    changed between the two conversions.  The document converter is given
    the exports that the scan has found so far; the converter of the small
    project imports the names a page refers to that are among them.  Page
    [a.html] refers to the name [Lib.b]; it is converted before [b.html],
    which defines the name, has been scanned.  After [b.html] is converted,
    [a.html] has its URL in the cache; converting it again scans nothing,
    and replaces its cached record by one with another text. *)
Lemma reconversion_changes_cached_entry :
  let c1 := (convertDocument Sample.page_a Sample.fresh_converter).2 in
  let c2 := (convertDocument Sample.page_b c1).2 in
  let c3 := (convertDocument Sample.page_a c2).2 in
  output <$> jsmap_get "a.html" (results c2) = Some (Some "// a.html;") /\
  scanner c3 = scanner c2 /\
  output <$> jsmap_get "a.html" (results c3)
  = Some (Some "// a.html; import Lib.b;") /\
  results c3 <> results c2.
Proof. repeat split; [reflexivity..|discriminate]. Qed.

(** C4 fails: [console.assert] writes its message and returns.  A script,
    which is no HTML document, is converted like any document, and the call
    returns. *)
Theorem non_html_document_is_converted :
("html-document" ∉ kinds Sample.script) /\
  convertDocument Sample.script Sample.fresh_converter
  = (Returns,
     {| scanner := scanDocument (scanner Sample.fresh_converter) Sample.script;
        results :=
          [("main.js",
            {| originalUrl := "main.js";
               convertedFilePath := "main.js.js";
               deleteOriginal := true;
               output := Some "// main.js;" |})];
        console :=
          ["Assertion failed: convertDocument() must be called with an HTML document, but got [object Set]"] |}).
Proof.
  split; [|reflexivity].
  apply (bool_decide_unpack _). reflexivity.
Qed.

(* ===================================================================== *)
(** ** More on the registry *)
(* ===================================================================== *)

Lemma replace_non_word_id (s : string) :
  Js.all_chars is_identifier_char s = true -> replace_non_word s = s.
Proof.
  unfold replace_non_word. induction s as [|c s IH]; [done|].
  simpl. intros [Hc Hs]%andb_prop. rewrite (IH Hs). f_equal.
  unfold is_identifier_char in Hc. destruct (is_word_char c); [done|].
  simpl in Hc. by apply Ascii.eqb_eq in Hc.
Qed.

(** A name of identifier characters other than [default] is its own first
    trial name, whatever the module. *)
Lemma initial_trial_name_plain (getFileName camelCase : string -> string)
    (u n : string) :
  Js.all_chars is_identifier_char n = true -> n <> "default" ->
  initial_trial_name getFileName camelCase u n = n.
Proof.
  intros Hchars Hdefault. unfold initial_trial_name, Js.replace_whole.
  destruct (String.eqb n "default") eqn:Hd;
    [by apply String.eqb_eq in Hd|].
  destruct (String.eqb n "*") eqn:Hstar.
  - apply String.eqb_eq in Hstar as ->. by vm_compute in Hchars.
  - by apply replace_non_word_id.
Qed.

(** A first trial name that is unused and not empty is returned after one
    round of the loop. *)
Lemma getOrSet_free_trial (getFileName camelCase : string -> string)
    (fuel : nat) (b : BundledExports) (u n : string) :
  initial_trial_name getFileName camelCase u n <> "" ->
  Js.truthy (export_name b u n) = None ->
  is_unused b (initial_trial_name getFileName camelCase u n) = true ->
  getOrSetBundleModuleExportName getFileName camelCase (S fuel) b u n
  = Some (initial_trial_name getFileName camelCase u n,
          assign b u n (initial_trial_name getFileName camelCase u n)).
Proof.
  intros Hne Hmemo Hfree. rewrite getOrSet_eq, Hmemo. simpl. rewrite Hfree.
  by destruct (initial_trial_name getFileName camelCase u n).
Qed.

Lemma resolve_frame (getFileName camelCase : string -> string)
    (fuel : nat) (b final : BundledExports)
    (requests : list (string * string)) (names : list string) (u' n' : string) :
  resolve_all getFileName camelCase fuel b requests = Some (names, final) ->
  (u', n') ∉ requests ->
  export_name final u' n' = export_name b u' n'.
Proof.
  revert b names. induction requests as [|[u n] rest IH]; intros b names.
  - simpl. by intros [= _ <-].
  - intros (x & b' & names' & Hcall & Hrest & _)%resolve_cons Hnot.
    apply not_elem_of_cons in Hnot as [Hne Hnot].
    rewrite (IH b' names' Hrest Hnot).
    destruct (getOrSet_returns _ _ _ _ _ _ _ _ Hcall)
      as [_ [[_ ->]|(_ & _ & ->)]]; [done|].
    rewrite export_name_assign. by case_decide.
Qed.

(** X1.  A call of [getOrSetBundleModuleExportName] that returns has given
    its own (module, export) pair the returned name and has left the entry
    of every other pair as it was; so has a sequence of calls for every pair
    that is not among its requests. *)
Theorem call_changes_only_its_pair (getFileName camelCase : string -> string)
    (fuel : nat) (b b' : BundledExports) (u n x : string) :
  getOrSetBundleModuleExportName getFileName camelCase fuel b u n
  = Some (x, b') ->
  export_name b' u n = Some x /\
  (forall u' n', (u', n') <> (u, n) ->
     export_name b' u' n' = export_name b u' n') /\
  (forall fuel' requests names final u' n',
     resolve_all getFileName camelCase fuel' b' requests = Some (names, final) ->
     (u', n') ∉ requests -> (u', n') <> (u, n) ->
     export_name final u' n' = export_name b u' n').
Proof.
  intros Hcall. split; [by apply (getOrSet_assigned _ _ _ _ _ _ _ _ Hcall)|].
  assert (Hframe : forall u' n', (u', n') <> (u, n) ->
            export_name b' u' n' = export_name b u' n').
  { intros u' n' Hne.
    destruct (getOrSet_returns _ _ _ _ _ _ _ _ Hcall)
      as [_ [[_ ->]|(_ & _ & ->)]]; [done|].
    rewrite export_name_assign. by case_decide. }
  split; [done|].
  intros fuel' requests names final u' n' Hrun Hnot Hne.
  rewrite (resolve_frame _ _ _ _ _ _ _ _ _ Hrun Hnot). by apply Hframe.
Qed.

Lemma call_changes_only_its_pair_witness :
  let b := assign ∅ "a.js" "x" "x" in
  export_name (assign b "b.js" "x" "x$1") "b.js" "x" = Some "x$1" /\
  export_name (assign b "b.js" "x" "x$1") "a.js" "x" = Some "x".
Proof.
  intros b.
  assert (Hcall :
    getOrSetBundleModuleExportName Sample.getFileName Sample.camelCase 2 b
      "b.js" "x" = Some ("x$1", assign b "b.js" "x" "x$1"))
    by (vm_compute; reflexivity).
  destruct (call_changes_only_its_pair _ _ _ _ _ _ _ _ Hcall)
    as (Hown & Hframe & _).
  split; [exact Hown|].
  rewrite (Hframe "a.js" "x"); [reflexivity|discriminate].
Defined.

Lemma getOrSet_free_name (getFileName camelCase : string -> string)
    (fuel : nat) (b : BundledExports) (u n : string) :
  Js.all_chars is_identifier_char n = true -> n <> "" -> n <> "default" ->
  Js.truthy (export_name b u n) = None ->
  is_unused b n = true ->
  getOrSetBundleModuleExportName getFileName camelCase (S fuel) b u n
  = Some (n, assign b u n n).
Proof.
  intros Hchars Hne Hdefault Hmemo Hfree.
  pose proof (initial_trial_name_plain getFileName camelCase u n Hchars Hdefault)
    as Htrial.
  pose proof (getOrSet_free_trial getFileName camelCase fuel b u n) as Hcall.
  rewrite Htrial in Hcall. by apply Hcall.
Qed.

Lemma is_plain_name_elim (n : string) :
  is_plain_name n = true ->
  Js.all_chars is_identifier_char n = true /\ n <> "" /\ n <> "default".
Proof.
  unfold is_plain_name. intros [[Hne Hchars]%andb_prop Hdefault]%andb_prop.
  split; [done|].
  split; intros ->; done.
Qed.

(** X2.  An export whose name is made of identifier characters, is not
    [default] and is free in the bundle keeps its name, whatever the module:
    the call returns the name itself, after one round of the loop, and
    records it for the pair. *)
Theorem free_name_is_kept (getFileName camelCase : string -> string)
    (fuel : nat) (b : BundledExports) (u n : string) :
  is_plain_name n = true ->
  Js.truthy (export_name b u n) = None ->
  is_unused b n = true ->
  getOrSetBundleModuleExportName getFileName camelCase (S fuel) b u n
  = Some (n, assign b u n n).
Proof.
  intros (Hchars & Hne & Hdefault)%is_plain_name_elim Hmemo Hfree.
  by apply getOrSet_free_name.
Qed.

Lemma free_name_is_kept_witness :
  getOrSetBundleModuleExportName Sample.getFileName Sample.camelCase 1
    (assign ∅ "a.js" "x" "x") "b.js" "$y_2"
  = Some ("$y_2", assign (assign ∅ "a.js" "x" "x") "b.js" "$y_2" "$y_2").
Proof.
  apply (free_name_is_kept Sample.getFileName Sample.camelCase 0
           (assign ∅ "a.js" "x" "x") "b.js" "$y_2");
    vm_compute; reflexivity.
Defined.

(** X3.  While the counters can be counted exactly, the call returns: with
    one round of the loop more than the bundle has names, a non-empty first
    trial name leads to a name after at most as many collisions as the
    bundle has names. *)
Theorem call_returns_while_counters_are_exact
    (getFileName camelCase : string -> string)
    (fuel : nat) (b : BundledExports) (u n : string) :
  initial_trial_name getFileName camelCase u n <> "" ->
  (start_counter (initial_trial_name getFileName camelCase u n)
   + N.of_nat (length (assigned_names b)) < 2 ^ 53)%N ->
  (length (assigned_names b) < fuel)%nat ->
  exists x b',
    getOrSetBundleModuleExportName getFileName camelCase fuel b u n
    = Some (x, b') /\
    (Js.truthy (export_name b u n) = None ->
     exists k, (k <= length (assigned_names b))%nat /\
       x = Nat.iter k next_trial_name
             (initial_trial_name getFileName camelCase u n) /\
       is_unused b x = true /\
       forall j, (j < k)%nat ->
         is_unused b (Nat.iter j next_trial_name
                        (initial_trial_name getFileName camelCase u n))
         = false).
Proof.
  intros Ht Hsmall Hfuel. rewrite getOrSet_eq.
  destruct (Js.truthy (export_name b u n)) as [x|]; [by exists x, b|].
  destruct (unused_name_within b _ Hsmall) as (k & Hk & Hfree & Hfirst).
  rewrite (find_unused_name_found k); [|done|done| |lia].
  - simpl. eexists _, _. split; [done|]. intros _. by exists k.
  - by apply iter_next_trial_name_nonempty.
Qed.

Lemma call_returns_while_counters_are_exact_witness :
  exists x b',
    getOrSetBundleModuleExportName Sample.getFileName Sample.camelCase 2
      (assign ∅ "a.js" "x" "x") "b.js" "x"
    = Some (x, b') /\
    (Js.truthy (export_name (assign ∅ "a.js" "x" "x") "b.js" "x") = None ->
     exists k, (k <= length (assigned_names (assign ∅ "a.js" "x" "x")))%nat /\
       x = Nat.iter k next_trial_name
             (initial_trial_name Sample.getFileName Sample.camelCase "b.js" "x") /\
       is_unused (assign ∅ "a.js" "x" "x") x = true /\
       forall j, (j < k)%nat ->
         is_unused (assign ∅ "a.js" "x" "x")
           (Nat.iter j next_trial_name
              (initial_trial_name Sample.getFileName Sample.camelCase "b.js" "x"))
         = false).
Proof.
  apply (call_returns_while_counters_are_exact
           Sample.getFileName Sample.camelCase 2
           (assign ∅ "a.js" "x" "x") "b.js" "x").
  - discriminate.
  - vm_compute. reflexivity.
  - vm_compute. lia.
Defined.

Lemma find_unused_name_empty (fuel : nat) (b : BundledExports) :
  is_unused b "" = true -> find_unused_name fuel b "" = None.
Proof.
  intros Hfree. induction fuel as [|fuel IH]; [done|].
  simpl. by rewrite Hfree.
Qed.

(** X4.  The empty export name never gets a name: on a bundle that has no
    entry for the pair and no empty name, the trial name is empty and
    unused, the loop assigns it and finds it falsy, and goes round again;
    the call has not returned after any number of rounds. *)
Theorem empty_export_name_never_returns
    (getFileName camelCase : string -> string) (b : BundledExports) (u : string) :
  export_name b u "" = None ->
  "" ∉ assigned_names b ->
  forall fuel,
    getOrSetBundleModuleExportName getFileName camelCase fuel b u "" = None.
Proof.
  intros Hnone Hnot fuel. rewrite getOrSet_eq, Hnone. simpl.
  change (initial_trial_name getFileName camelCase u "") with "".
  rewrite find_unused_name_empty; [done|].
  apply is_unused_spec. intros u' n' Hx. apply Hnot.
  apply elem_of_assigned_names. by exists u', n'.
Qed.

Lemma empty_export_name_never_returns_witness :
  export_name (assign ∅ "a.js" "x" "x") "a.js" "" = None /\
  forall fuel,
    getOrSetBundleModuleExportName Sample.getFileName Sample.camelCase fuel
      (assign ∅ "a.js" "x" "x") "a.js" "" = None.
Proof.
  assert (Hnone : export_name (assign ∅ "a.js" "x" "x") "a.js" "" = None)
    by (vm_compute; reflexivity).
  split; [exact Hnone|].
  apply (empty_export_name_never_returns Sample.getFileName Sample.camelCase
           (assign ∅ "a.js" "x" "x") "a.js" Hnone).
  apply (bool_decide_unpack _). vm_compute. exact I.
Defined.

(** X5.  While the counters can be counted exactly, the name returned for
    an export whose name does not start with a digit and is neither
    [default] nor [*] is an identifier: characters of [[A-Za-z0-9_$]], the
    first of them not a digit. *)
Theorem returned_name_is_identifier (getFileName camelCase : string -> string)
    (fuel : nat) (b b' : BundledExports) (u x : string)
    (c : ascii) (rest : string) :
  identifiers_with_exact_counters b ->
  Js.is_digit c = false ->
  String c rest <> "default" -> String c rest <> "*" ->
  getOrSetBundleModuleExportName getFileName camelCase fuel b u (String c rest)
  = Some (x, b') ->
  is_identifier x = true.
Proof.
  intros Hb Hc Hdefault Hstar Hcall.
  apply (assigned_name_is_identifier_while_exact
           getFileName camelCase fuel b b' u (String c rest) x Hb); [|done].
  by apply initial_trial_name_identifier.
Qed.

Lemma returned_name_is_identifier_witness :
  getOrSetBundleModuleExportName Sample.getFileName Sample.camelCase 2
    (assign ∅ "a.js" "x" "x") "b.js" "x"
  = Some ("x$1", assign (assign ∅ "a.js" "x" "x") "b.js" "x" "x$1") /\
  is_identifier "x$1" = true.
Proof.
  assert (Hcall :
    getOrSetBundleModuleExportName Sample.getFileName Sample.camelCase 2
      (assign ∅ "a.js" "x" "x") "b.js" "x"
    = Some ("x$1", assign (assign ∅ "a.js" "x" "x") "b.js" "x" "x$1"))
    by (vm_compute; reflexivity).
  split; [exact Hcall|].
  apply (returned_name_is_identifier Sample.getFileName Sample.camelCase 2
           (assign ∅ "a.js" "x" "x")
           (assign (assign ∅ "a.js" "x" "x") "b.js" "x" "x$1")
           "b.js" "x$1" "x" "");
    [|reflexivity|discriminate|discriminate|exact Hcall].
  intros u n y. rewrite export_name_assign. case_decide.
  - intros [= <-]. split; [reflexivity|]. vm_compute. discriminate.
  - unfold export_name. rewrite lookup_empty. discriminate.
Defined.

(** A replacement text without [$] stands for itself. *)
Lemma getSubstitution_no_dollar (matched s : string) :
  Js.all_chars (fun c => negb (Ascii.eqb c "$")) s = true ->
  Js.getSubstitution matched s = s.
Proof.
  induction s as [|c s IH]; [done|].
  simpl Js.all_chars. intros [Hc Hs]%andb_prop.
  assert (Hstep : Js.getSubstitution matched (String c s)
                  = String c (Js.getSubstitution matched s)).
  { destruct c as [[] [] [] [] [] [] [] []]; try done. }
  by rewrite Hstep, IH.
Qed.

(** [$] before word characters stands for itself too. *)
Lemma getSubstitution_dollar_word (matched s : string) :
  Js.all_chars is_word_char s = true ->
  Js.getSubstitution matched (String "$" s) = String "$" s.
Proof.
  intros Hs.
  assert (Hrest : Js.getSubstitution matched s = s).
  { apply getSubstitution_no_dollar.
    apply (all_chars_impl is_word_char); [|done].
    intros c Hc. destruct c as [[] [] [] [] [] [] [] []]; done. }
  destruct s as [|c s]; [done|].
  assert (Hstep : Js.getSubstitution matched (String "$" (String c s))
                  = String "$" (Js.getSubstitution matched (String c s))).
  { simpl in Hs. apply andb_prop in Hs as [Hc _].
    destruct c as [[] [] [] [] [] [] [] []]; done. }
  by rewrite Hstep, Hrest.
Qed.

Lemma word_chars_are_identifier_chars (s : string) :
  Js.all_chars is_word_char s = true ->
  Js.all_chars is_identifier_char s = true.
Proof.
  apply all_chars_impl. intros c Hc. unfold is_identifier_char. by rewrite Hc.
Qed.

(** X6.  The first trial names of the two special export names, for a
    module whose camel-cased file name without extension is made of word
    characters: the default export is tried as [$<name>Default], the
    namespace export [*] as [$<name>]. *)
Theorem default_and_namespace_trial_names
    (getFileName camelCase : string -> string) (u : string) :
  Js.all_chars is_word_char (camelCase (strip_extension (getFileName u))) = true ->
  initial_trial_name getFileName camelCase u "default"
  = "$" +:+ camelCase (strip_extension (getFileName u)) +:+ "Default" /\
  initial_trial_name getFileName camelCase u "*"
  = "$" +:+ camelCase (strip_extension (getFileName u)).
Proof.
  intros Hw. unfold initial_trial_name, moduleFileNameIdentifier.
  set (w := camelCase (strip_extension (getFileName u))) in *.
  change ("$" +:+ w) with (String "$" w).
  split.
  - change (Js.replace_whole "default" ?r "default")
      with (Js.getSubstitution "default" r).
    rewrite !append_cons.
    assert (Hchars : Js.all_chars is_word_char (w +:+ "Default") = true)
      by by rewrite all_chars_append, Hw.
    rewrite (getSubstitution_dollar_word _ _ Hchars).
    change (Js.replace_whole "*" ?r (String "$" ?s)) with (String "$" s).
    apply replace_non_word_id. simpl.
    by apply word_chars_are_identifier_chars.
  - change (Js.replace_whole "default" ?r "*") with "*".
    change (Js.replace_whole "*" ?r "*") with (Js.getSubstitution "*" r).
    rewrite (getSubstitution_dollar_word _ _ Hw).
    apply replace_non_word_id. simpl.
    by apply word_chars_are_identifier_chars.
Qed.

Lemma default_and_namespace_trial_names_witness :
  initial_trial_name Sample.getFileName Sample.camelCase
    "components/my-element.js" "default" = "$myElementDefault" /\
  initial_trial_name Sample.getFileName Sample.camelCase
    "components/my-element.js" "*" = "$myElement".
Proof.
  apply (default_and_namespace_trial_names Sample.getFileName Sample.camelCase
           "components/my-element.js").
  vm_compute. reflexivity.
Defined.

Lemma strip_extension_cons (c : ascii) (s : string) :
  strip_extension (String c s)
  = if Ascii.eqb c "." && negb (String.eqb s "")
       && Js.all_chars is_extension_char s
    then "" else String c (strip_extension s).
Proof. reflexivity. Qed.

(** X7.  [replace(/\.[a-z0-9_]+$/, '')] on a file name: an extension of
    lower-case letters, digits and underscores is cut off with its dot,
    whatever stands before it; and a file name is either left as it is or
    has such an extension, which is then what is cut off. *)
Theorem strip_extension_cuts_last_extension :
  (forall base ext,
      ext <> "" -> Js.all_chars is_extension_char ext = true ->
      strip_extension (base +:+ "." +:+ ext) = base) /\
  (forall s,
      strip_extension s = s \/
      exists base ext,
        s = base +:+ "." +:+ ext /\ ext <> "" /\
        Js.all_chars is_extension_char ext = true /\
        strip_extension s = base).
Proof.
  split.
  - intros base ext Hne Hext. induction base as [|c base IH].
    + change ("" +:+ ?s) with s. change ("." +:+ ext) with (String "." ext).
      rewrite strip_extension_cons, Hext.
      destruct (String.eqb_spec ext ""); done.
    + rewrite append_cons, strip_extension_cons, IH.
      rewrite all_chars_append.
      change ("." +:+ ext) with (String "." ext). simpl Js.all_chars.
      change (is_extension_char ".") with false.
      by rewrite !andb_false_r.
  - intros s. induction s as [|c s IH]; [by left|].
    rewrite strip_extension_cons.
    destruct (Ascii.eqb c "." && negb (String.eqb s "")
              && Js.all_chars is_extension_char s) eqn:Hcut.
    + right. exists "", s.
      apply andb_prop in Hcut as [[Hc Hs]%andb_prop Hext].
      apply Ascii.eqb_eq in Hc as ->.
      split; [done|]. split; [|done].
      intros ->. done.
    + destruct IH as [->|(base & ext & -> & Hne & Hext & ->)]; [by left|].
      right. exists (String c base), ext. by rewrite append_cons.
Qed.

Lemma strip_extension_cuts_last_extension_witness :
  strip_extension "my-element.min.js" = "my-element.min".
Proof.
  apply (proj1 strip_extension_cuts_last_extension "my-element.min" "js");
    [discriminate|reflexivity].
Defined.

(* ===================================================================== *)
(** ** More on the syntax tree *)
(* ===================================================================== *)

Lemma existsb_on_nullable_any (visit : node -> bool) (o : option node) :
  on_nullable_any visit o = existsb visit (option_list o).
Proof. destruct o; simpl; [by rewrite orb_false_r|done]. Qed.

Lemma existsb_omap_id (visit : node -> bool) (elements : list (option node)) :
  existsb (on_nullable_any visit) elements = existsb visit (omap id elements).
Proof.
  induction elements as [|[e|] l IH]; simpl; [done|by rewrite IH|done].
Qed.

(** [traverse.node] visits the children. *)
Lemma traverse_node_children (visit : node -> bool) (n : node) :
  traverse_node visit n = existsb visit (visitor_children n).
Proof.
  destruct n; simpl;
    rewrite ?existsb_app, ?existsb_on_nullable_any, ?existsb_omap_id; simpl;
    rewrite ?orb_false_r, ?orb_assoc; reflexivity.
Qed.

Lemma visit_for_default_eq (n : node) :
  visit_for_default n
  = match n with
    | ExportDefaultDeclaration _ => true
    | _ => existsb visit_for_default (visitor_children n)
    end.
Proof. destruct n; try done; apply traverse_node_children. Qed.

(** Induction over the tree, with the hypothesis for the children the
    traversal goes to. *)
Lemma node_children_induction (P : node -> Prop) :
  (forall n, (forall c, c ∈ visitor_children n -> P c) -> P n) ->
  forall n, P n.
Proof.
  intros Hstep. apply node_induction; intros; apply Hstep; simpl; intros c Hc;
    repeat first
      [ apply elem_of_nil in Hc; destruct Hc
      | apply elem_of_cons in Hc as [->|Hc]
      | apply elem_of_app in Hc as [Hc|Hc]
      | match type of Hc with
        | _ ∈ option_list ?o => destruct o as [?|]; simpl in Hc
        end
      | apply list_elem_of_omap in Hc as (e & He & Hid); simpl in Hid ];
    try done;
    try (by eauto);
    match goal with
    | H : Forall P ?l, Hc : c ∈ ?l |- _ =>
        exact (proj1 (Forall_forall P l) H c Hc)
    | H : Forall _ ?l, He : ?e ∈ ?l |- _ =>
        by apply (proj1 (Forall_forall _ l) H e He)
    end.
Qed.

Lemma existsb_elem_of {A} (f : A -> bool) (l : list A) :
  existsb f l = true <-> exists x, x ∈ l /\ f x = true.
Proof.
  rewrite existsb_exists. split; intros (x & Hx & Hf); exists x;
    by rewrite ?list_elem_of_In in *.
Qed.

(** The visit of a node stops the traversal exactly when the node is a
    default export or has one below it. *)
Lemma visit_for_default_spec (n : node) :
  visit_for_default n = true <->
  (exists d, n = ExportDefaultDeclaration d) \/
  (exists d, inside (ExportDefaultDeclaration d) n).
Proof.
  induction n as [n IH] using node_children_induction.
  rewrite visit_for_default_eq.
  assert (Hchildren :
    existsb visit_for_default (visitor_children n) = true <->
    exists d, inside (ExportDefaultDeclaration d) n).
  { rewrite existsb_elem_of. split.
    - intros (c & Hc & Hvisit). apply (IH c Hc) in Hvisit as [[d ->]|[d Hd]].
      + exists d. by apply inside_child.
      + exists d. by apply (inside_below _ c).
    - intros [d Hd]. inversion Hd as [? Hc|c ? Hc Hbelow]; subst.
      + exists (ExportDefaultDeclaration d). split; [done|].
        apply IH; [done|]. left. by exists d.
      + exists c. split; [done|]. apply IH; [done|]. right. by exists d. }
  destruct n; try (rewrite Hchildren; split; [by right|];
                   by intros [[d [=]]|Hd]).
  split; [|done]. intros _. left. by eexists.
Qed.

(** X8.  [hasDefaultModuleExport] is true exactly when there is an
    [ExportDefaultDeclaration] below the node it is called with; a default
    export among the statements of a program is one. *)
Theorem default_export_found_below_root :
  (forall n,
      hasDefaultModuleExport n = true <->
      exists d, inside (ExportDefaultDeclaration d) n) /\
  (forall body d,
      ExportDefaultDeclaration d ∈ body ->
      hasDefaultModuleExport (Program body) = true).
Proof.
  assert (Hiff : forall n,
      hasDefaultModuleExport n = true <->
      exists d, inside (ExportDefaultDeclaration d) n).
  { intros n. unfold hasDefaultModuleExport.
    rewrite traverse_node_children, existsb_elem_of. split.
    - intros (c & Hc & [[d ->]|[d Hd]]%visit_for_default_spec).
      + exists d. by apply inside_child.
      + exists d. by apply (inside_below _ c).
    - intros [d Hd]. inversion Hd as [? Hc|c ? Hc Hbelow]; subst.
      + exists (ExportDefaultDeclaration d). split; [done|].
        apply visit_for_default_spec. left. by exists d.
      + exists c. split; [done|]. apply visit_for_default_spec.
        right. by exists d. }
  split; [exact Hiff|].
  intros body d Hd. apply Hiff. exists d. by apply inside_child.
Qed.

Lemma default_export_found_below_root_witness :
  hasDefaultModuleExport
    (Program [Other "ImportDeclaration" [];
              ExportDefaultDeclaration (Identifier "x")]) = true.
Proof.
  apply (proj2 default_export_found_below_root _ (Identifier "x")).
  apply elem_of_cons. right. apply elem_of_cons. by left.
Defined.

Lemma visit_for_default_specifiers_only (s : node) :
  specifiers_only s = true -> visit_for_default s = false.
Proof.
  destruct s as [| | | | | | | | | | |[d|] specifiers [src|]| | |]; try done.
  simpl. intros Hspecs. rewrite orb_false_r.
  induction specifiers as [|spec l IH]; [done|].
  simpl in *. apply andb_prop in Hspecs as [Hspec Hl].
  rewrite (IH Hl), orb_false_r.
  by destruct spec as [| | | | | | | | | |[] []| | | |].
Qed.

(** X9.  A module that exports through specifiers only, as in
    [export {x as default};], has no default export for
    [hasDefaultModuleExport], also where a specifier exports under the name
    [default]; [getModuleExportNames] has [default] among the names of
    such a module. *)
Theorem default_specifier_is_not_found (body : list node) :
  forallb specifiers_only body = true ->
  hasDefaultModuleExport (Program body) = false /\
  (forall specifiers local,
      ExportNamedDeclaration None specifiers None ∈ body ->
      ExportSpecifier (Identifier local) (Identifier "default") ∈ specifiers ->
      "default" ∈ getModuleExportNames (Program body)).
Proof.
  intros Hbody. split.
  - unfold hasDefaultModuleExport. simpl.
    induction body as [|s l IH]; [done|].
    simpl in *. apply andb_prop in Hbody as [Hs Hl].
    by rewrite (visit_for_default_specifiers_only s Hs), (IH Hl).
  - intros specifiers local Hs Hspec.
    apply js_set_of_spec. simpl.
    apply list_elem_of_In, in_flat_map. eexists. split;
      [by apply list_elem_of_In|].
    apply list_elem_of_In. simpl. apply elem_of_app. left.
    unfold getModuleExportIdentifiers.
    apply list_elem_of_In, in_flat_map. eexists. split;
      [apply list_elem_of_In, list_elem_of_fmap; by eexists|].
    simpl. by left.
Qed.

Lemma default_specifier_is_not_found_witness :
  hasDefaultModuleExport
    (Program [ExportNamedDeclaration None
                [ExportSpecifier (Identifier "x") (Identifier "default")] None])
  = false /\
  "default" ∈ getModuleExportNames
    (Program [ExportNamedDeclaration None
                [ExportSpecifier (Identifier "x") (Identifier "default")] None]).
Proof.
  destruct (default_specifier_is_not_found
              [ExportNamedDeclaration None
                 [ExportSpecifier (Identifier "x") (Identifier "default")] None]
              eq_refl) as [Hno Hnames].
  split; [exact Hno|].
  apply (Hnames [ExportSpecifier (Identifier "x") (Identifier "default")] "x");
    apply elem_of_cons; by left.
Defined.

(** X10.  For a module whose named exports have plain bindings only
    (identifiers and array and object patterns of them, without rest
    element and without default value), [getModuleExportNames] is the set of
    the names the module exports through its named exports: each of them
    once, in the order of their first occurrence. *)
Theorem export_names_of_plain_module (body : list node) :
  forallb plain_statement body = true ->
  getModuleExportNames (Program body)
  = js_set_of (exported_names (Program body)) /\
  NoDup (getModuleExportNames (Program body)) /\
  (forall x,
      x ∈ getModuleExportNames (Program body) <->
      x ∈ exported_names (Program body)).
Proof.
  intros Hplain. rewrite (plain_module_export_names body Hplain).
  split; [done|]. apply js_set_of_spec.
Qed.

Lemma export_names_of_plain_module_witness :
  getModuleExportNames Sample.export_const_a_b_d = ["a"; "b"; "d"].
Proof.
  destruct (export_names_of_plain_module
              [ExportNamedDeclaration
                 (Some (VariableDeclaration "const"
                          [VariableDeclarator (Identifier "a")
                             (Some (Other "NumericLiteral" []));
                           VariableDeclarator
                             (ObjectPattern
                                [ObjectProperty (Identifier "b") (Identifier "b");
                                 ObjectProperty (Identifier "c") (Identifier "d")])
                             (Some (Identifier "obj"))]))
                 [] None] eq_refl) as [Hnames _].
  exact Hnames.
Defined.

(** X11.  A statement without a named-export declaration in it adds
    nothing to the names of a module: not a default export, not
    [export * from './module-a.js';], not an import. *)
Theorem other_statements_export_no_names (before after : list node) (s : node) :
  no_named_export s = true ->
  getModuleExportNames (Program (before ++ s :: after))
  = getModuleExportNames (Program (before ++ after)).
Proof.
  intros Hs. unfold getModuleExportNames. simpl.
  rewrite !flat_map_app. simpl.
  by rewrite (visit_for_exports_none s Hs).
Qed.

Lemma other_statements_export_no_names_witness :
  getModuleExportNames
    (Program [ExportNamedDeclaration None
                [ExportSpecifier (Identifier "x") (Identifier "y")] None;
              Other "ExportAllDeclaration" [Other "StringLiteral" []];
              ExportDefaultDeclaration (Identifier "x")])
  = getModuleExportNames
      (Program [ExportNamedDeclaration None
                  [ExportSpecifier (Identifier "x") (Identifier "y")] None;
                ExportDefaultDeclaration (Identifier "x")]).
Proof.
  apply (other_statements_export_no_names
           [ExportNamedDeclaration None
              [ExportSpecifier (Identifier "x") (Identifier "y")] None]
           [ExportDefaultDeclaration (Identifier "x")]
           (Other "ExportAllDeclaration" [Other "StringLiteral" []])).
  reflexivity.
Defined.

(* ===================================================================== *)
(** ** The reservation pass *)
(* ===================================================================== *)

Lemma export_name_reserved (b : BundledExports) (url : string)
    (names : list string) (u n : string) :
  export_name (reserved b url names) u n
  = if decide (u = url /\ n ∈ names) then Some n else export_name b u n.
Proof.
  unfold reserved. revert b. induction names as [|x l IH]; intros b; simpl.
  - case_decide as H; [|done]. destruct H as [_ H]. by apply elem_of_nil in H.
  - rewrite IH, export_name_assign.
    destruct (decide (u = url /\ n ∈ l)) as [[-> Hn]|Hnot].
    + case_decide as H1; [done|]. destruct H1.
      split; [done|]. apply elem_of_cons. by right.
    + destruct (decide ((u, n) = (url, x))) as [[= -> ->]|Hne].
      * case_decide as H1; [done|]. destruct H1.
        split; [done|]. apply elem_of_cons. by left.
      * case_decide as H1; [|done].
        destruct H1 as [-> [->|Hn]%elem_of_cons]; [done|].
        by destruct Hnot.
Qed.

(** The names of a module that are plain and free in the bundle are
    resolved to themselves, one round of the loop each. *)
Lemma resolve_plain_names (getFileName camelCase : string -> string)
    (fuel : nat) (b : BundledExports) (url : string) (names : list string) :
  NoDup names ->
  Forall (fun x => is_plain_name x = true /\ is_unused b x = true /\
                   export_name b url x = None) names ->
  resolve_all getFileName camelCase (S fuel) b
    ((fun exportName => (url, exportName)) <$> names)
  = Some (names, reserved b url names).
Proof.
  revert b. induction names as [|x l IH]; intros b Hnodup Hnames; [done|].
  apply NoDup_cons in Hnodup as [Hx Hl].
  apply Forall_cons in Hnames as [(Hplain & Hfree & Hnone) Hrest].
  apply is_plain_name_elim in Hplain as (Hchars & Hne & Hdefault).
  rewrite fmap_cons.
  cbn [resolve_all].
  rewrite (getOrSet_free_name getFileName camelCase fuel b url x);
    [|done|done|done|by rewrite Hnone|done].
  rewrite (IH (assign b url x x)); [done|done|].
  apply Forall_forall. intros y Hy.
  destruct (proj1 (Forall_forall _ _) Hrest y Hy) as (Hyplain & Hyfree & Hynone).
  split; [done|]. split.
  - rewrite (is_unused_assign b url x x y Hnone), Hyfree, andb_true_r.
    destruct (String.eqb_spec y x) as [->|]; done.
  - rewrite export_name_assign. case_decide as Heq; [|done].
    injection Heq as ->. done.
Qed.

Section ReserveFacts.

Variable getFileName : string -> string.
Variable camelCase : string -> string.
Variable parsedDocument_ast : string -> node.

(** What happens to one bundle of the manifest. *)
Lemma reserve_lookup (fuel : nat) (bundles bundles' : JsMap string Bundle)
    (i : nat) (url : string) (bundle : Bundle) :
  reserveBundleModuleExportNames getFileName camelCase parsedDocument_ast
    fuel bundles = Some bundles' ->
  bundles !! i = Some (url, bundle) ->
  exists bundle',
    bundles' !! i = Some (url, bundle') /\
    (if String.eqb (type bundle) "es6-module"
     then reserve_in_bundle getFileName camelCase parsedDocument_ast
            fuel url bundle
     else Some bundle) = Some bundle'.
Proof.
  revert bundles' i. induction bundles as [|[url0 bundle0] rest IH];
    intros bundles' i Hrun Hi; [by rewrite lookup_nil in Hi|].
  simpl in Hrun.
  destruct (if String.eqb (type bundle0) "es6-module"
            then reserve_in_bundle getFileName camelCase parsedDocument_ast
                   fuel url0 bundle0
            else Some bundle0) as [bundle0'|] eqn:Hfirst; [|done].
  destruct (reserveBundleModuleExportNames getFileName camelCase
              parsedDocument_ast fuel rest) as [rest'|] eqn:Hrest; [|done].
  injection Hrun as <-.
  destruct i as [|i]; simpl in *.
  - injection Hi as -> ->. by exists bundle0'.
  - by apply IH.
Qed.

Lemma reserve_keys (fuel : nat) (bundles bundles' : JsMap string Bundle) :
  reserveBundleModuleExportNames getFileName camelCase parsedDocument_ast
    fuel bundles = Some bundles' ->
  jsmap_keys bundles' = jsmap_keys bundles.
Proof.
  revert bundles'. induction bundles as [|[url0 bundle0] rest IH];
    intros bundles' Hrun; simpl in Hrun; [by injection Hrun as <-|].
  destruct (if String.eqb (type bundle0) "es6-module" then _ else _)
    as [bundle0'|]; [|done].
  destruct (reserveBundleModuleExportNames getFileName camelCase
              parsedDocument_ast fuel rest) as [rest'|]; [|done].
  injection Hrun as <-. unfold jsmap_keys in *. rewrite !fmap_cons.
  f_equal. by apply IH.
Qed.

Lemma reserve_in_bundle_frame (fuel : nat) (url : string) (bundle bundle' : Bundle) :
  reserve_in_bundle getFileName camelCase parsedDocument_ast fuel url bundle
  = Some bundle' ->
  type bundle' = type bundle /\
  files bundle' = files bundle /\
  (url ∉ files bundle -> bundle' = bundle) /\
  (forall u n, u <> url ->
     export_name (bundledExports bundle') u n
     = export_name (bundledExports bundle) u n) /\
  (forall u n y,
     export_name (bundledExports bundle) u n = Some y -> y <> "" ->
     export_name (bundledExports bundle') u n = Some y).
Proof.
  unfold reserve_in_bundle. case_bool_decide as Hfile.
  - destruct (resolve_all _ _ _ _ _) as [[names final]|] eqn:Hrun; [|done].
    intros [= <-]. simpl. do 2 (split; [done|]). split; [done|]. split.
    + intros u n Hu. apply (resolve_frame _ _ _ _ _ _ _ _ _ Hrun).
      intros (x & [= -> _] & _)%list_elem_of_fmap. done.
    + intros u n y Hy Hne. by apply (resolve_keeps _ _ _ _ _ _ _ _ _ _ Hrun).
  - intros [= <-]. done.
Qed.

(** X12.  The reservation pass keeps the bundles of the manifest, their
    order, types and files.  It changes export names only in bundles of type
    ['es6-module'] that have a file with their own URL, and there only the
    names of the module with that URL; a non-empty name that was assigned
    before the pass is still assigned after it. *)
Theorem reservation_changes_own_module_only
    (fuel : nat) (bundles bundles' : JsMap string Bundle) :
  reserveBundleModuleExportNames getFileName camelCase parsedDocument_ast
    fuel bundles = Some bundles' ->
  jsmap_keys bundles' = jsmap_keys bundles /\
  forall i url bundle,
    bundles !! i = Some (url, bundle) ->
    exists bundle',
      bundles' !! i = Some (url, bundle') /\
      type bundle' = type bundle /\
      files bundle' = files bundle /\
      (type bundle <> "es6-module" \/ url ∉ files bundle -> bundle' = bundle) /\
      (forall u n, u <> url ->
         export_name (bundledExports bundle') u n
         = export_name (bundledExports bundle) u n) /\
      (forall u n y,
         export_name (bundledExports bundle) u n = Some y -> y <> "" ->
         export_name (bundledExports bundle') u n = Some y).
Proof.
  intros Hrun. split; [by apply (reserve_keys fuel)|].
  intros i url bundle Hi.
  destruct (reserve_lookup fuel bundles bundles' i url bundle Hrun Hi)
    as (bundle' & Hi' & Hbundle).
  exists bundle'. split; [done|].
  destruct (String.eqb_spec (type bundle) "es6-module") as [Htype|Htype].
  - destruct (reserve_in_bundle_frame fuel url bundle bundle' Hbundle)
      as (Ht & Hf & Hsame & Hframe & Hkeeps).
    do 2 (split; [done|]). split; [|done].
    intros [Hother|Hfile]; [done|by apply Hsame].
  - injection Hbundle as <-. done.
Qed.

(** X13.  The names that the module of a bundle exports have precedence.
    Where they are plain names that the bundle does not have yet, the pass
    returns with each of them assigned to itself for the bundle's own
    module; the same export name of another module then gets another name
    than that. *)
Theorem reserved_names_have_precedence
    (fuel : nat) (bundles bundles' : JsMap string Bundle)
    (i : nat) (url : string) (bundle : Bundle) :
  reserveBundleModuleExportNames getFileName camelCase parsedDocument_ast
    (S fuel) bundles = Some bundles' ->
  bundles !! i = Some (url, bundle) ->
  type bundle = "es6-module" ->
  url ∈ files bundle ->
  Forall (fun x => is_plain_name x = true /\
                   is_unused (bundledExports bundle) x = true /\
                   export_name (bundledExports bundle) url x = None)
    (getModuleExportNames (parsedDocument_ast url)) ->
  bundles' !! i
  = Some (url,
          {| type := type bundle;
             files := files bundle;
             bundledExports :=
               reserved (bundledExports bundle) url
                 (getModuleExportNames (parsedDocument_ast url)) |}) /\
  (forall x,
     x ∈ getModuleExportNames (parsedDocument_ast url) ->
     export_name
       (reserved (bundledExports bundle) url
          (getModuleExportNames (parsedDocument_ast url))) url x = Some x) /\
  (forall fuel' u x y b',
     x ∈ getModuleExportNames (parsedDocument_ast url) -> u <> url ->
     getOrSetBundleModuleExportName getFileName camelCase fuel'
       (reserved (bundledExports bundle) url
          (getModuleExportNames (parsedDocument_ast url))) u x
     = Some (y, b') ->
     y <> x).
Proof.
  intros Hrun Hi Htype Hfile Hnames.
  destruct (reserve_lookup (S fuel) bundles bundles' i url bundle Hrun Hi)
    as (bundle' & Hi' & Hbundle).
  rewrite Htype in Hbundle. simpl in Hbundle.
  unfold reserve_in_bundle in Hbundle.
  rewrite (bool_decide_eq_true_2 _ Hfile) in Hbundle.
  rewrite (resolve_plain_names getFileName camelCase fuel _ url _
             (getModuleExportNames_NoDup _) Hnames) in Hbundle.
  injection Hbundle as <-.
  split; [done|]. split.
  - intros x Hx. rewrite export_name_reserved.
    case_decide as Hown; [done|]. by destruct Hown.
  - intros fuel' u x y b' Hx Hu Hcall ->.
    destruct (proj1 (Forall_forall _ _) Hnames x Hx) as (_ & Hfree & _).
    destruct (getOrSet_returns _ _ _ _ _ _ _ _ Hcall)
      as [_ [[Hmemo _]|(_ & Hfree' & _)]].
    + rewrite export_name_reserved in Hmemo.
      case_decide as Hown; [by destruct Hown|].
      by apply (proj1 (is_unused_spec _ _) Hfree u x).
    + apply (proj1 (is_unused_spec _ _) Hfree' url x).
      rewrite export_name_reserved.
      case_decide as Hown; [done|]. by destruct Hown.
Qed.

End ReserveFacts.

Lemma reservation_changes_own_module_only_witness :
  reserveBundleModuleExportNames Sample.getFileName Sample.camelCase
    SampleManifest.parsedDocument_ast 1 SampleManifest.bundles
  = Some [("app.js",
           {| type := "es6-module";
              files := {[ "app.js"; "lib.js" ]};
              bundledExports := reserved ∅ "app.js" ["a"; "b"; "d"] |});
          ("page.html", SampleManifest.page_bundle);
          ("shared_bundle_1.js", SampleManifest.shared_bundle)] /\
  exists bundle',
    [("app.js",
      {| type := "es6-module";
         files := {[ "app.js"; "lib.js" ]};
         bundledExports := reserved ∅ "app.js" ["a"; "b"; "d"] |});
     ("page.html", SampleManifest.page_bundle);
     ("shared_bundle_1.js", SampleManifest.shared_bundle)] !! 2%nat
    = Some ("shared_bundle_1.js", bundle') /\
    bundle' = SampleManifest.shared_bundle.
Proof.
  assert (Hrun :
    reserveBundleModuleExportNames Sample.getFileName Sample.camelCase
      SampleManifest.parsedDocument_ast 1 SampleManifest.bundles
    = Some [("app.js",
             {| type := "es6-module";
                files := {[ "app.js"; "lib.js" ]};
                bundledExports := reserved ∅ "app.js" ["a"; "b"; "d"] |});
            ("page.html", SampleManifest.page_bundle);
            ("shared_bundle_1.js", SampleManifest.shared_bundle)])
    by (vm_compute; reflexivity).
  split; [exact Hrun|].
  destruct (reservation_changes_own_module_only
              Sample.getFileName Sample.camelCase
              SampleManifest.parsedDocument_ast 1 _ _ Hrun) as [_ Hall].
  destruct (Hall 2%nat "shared_bundle_1.js" SampleManifest.shared_bundle eq_refl)
    as (bundle' & Hi & _ & _ & Hsame & _).
  exists bundle'. split; [exact Hi|].
  apply Hsame. right. apply (bool_decide_unpack _). vm_compute. exact I.
Defined.

Lemma reserved_names_have_precedence_witness :
  export_name (reserved ∅ "app.js" ["a"; "b"; "d"]) "app.js" "b" = Some "b" /\
  getOrSetBundleModuleExportName Sample.getFileName Sample.camelCase 2
    (reserved ∅ "app.js" ["a"; "b"; "d"]) "lib.js" "b"
  = Some ("b$1", assign (reserved ∅ "app.js" ["a"; "b"; "d"]) "lib.js" "b" "b$1") /\
  "b$1" <> "b".
Proof.
  assert (Hrun :
    reserveBundleModuleExportNames Sample.getFileName Sample.camelCase
      SampleManifest.parsedDocument_ast 1 SampleManifest.bundles
    = Some [("app.js",
             {| type := "es6-module";
                files := {[ "app.js"; "lib.js" ]};
                bundledExports := reserved ∅ "app.js" ["a"; "b"; "d"] |});
            ("page.html", SampleManifest.page_bundle);
            ("shared_bundle_1.js", SampleManifest.shared_bundle)])
    by (vm_compute; reflexivity).
  assert (Hfile : "app.js" ∈ files SampleManifest.app_bundle)
    by (apply (bool_decide_unpack _); vm_compute; exact I).
  assert (Hnames :
    Forall (fun x => is_plain_name x = true /\
                     is_unused (bundledExports SampleManifest.app_bundle) x = true /\
                     export_name (bundledExports SampleManifest.app_bundle)
                       "app.js" x = None)
      (getModuleExportNames (SampleManifest.parsedDocument_ast "app.js"))).
  { change (getModuleExportNames (SampleManifest.parsedDocument_ast "app.js"))
      with ["a"; "b"; "d"].
    repeat (constructor; [repeat split; vm_compute; reflexivity|]).
    constructor. }
  destruct (reserved_names_have_precedence
              Sample.getFileName Sample.camelCase
              SampleManifest.parsedDocument_ast 0 _ _ 0%nat "app.js"
              SampleManifest.app_bundle Hrun eq_refl eq_refl Hfile Hnames)
    as (_ & Hown & Hother).
  assert (Hcall :
    getOrSetBundleModuleExportName Sample.getFileName Sample.camelCase 2
      (reserved ∅ "app.js" ["a"; "b"; "d"]) "lib.js" "b"
    = Some ("b$1",
            assign (reserved ∅ "app.js" ["a"; "b"; "d"]) "lib.js" "b" "b$1"))
    by (vm_compute; reflexivity).
  split; [|split; [exact Hcall|]].
  - apply (Hown "b"). apply (bool_decide_unpack _). vm_compute. exact I.
  - apply (Hother 2%nat "lib.js" "b" "b$1"
             (assign (reserved ∅ "app.js" ["a"; "b"; "d"]) "lib.js" "b" "b$1"));
      [|discriminate|exact Hcall].
    apply (bool_decide_unpack _). vm_compute. exact I.
Defined.

(* ===================================================================== *)
(** ** More on the converter *)
(* ===================================================================== *)

(** X14.  In the map that [getResults] returns, a path has what the last
    write for it wrote: the last entry for the path among the tombstones and
    contents that the records of the cache emit, in the order of the cache;
    a path without an entry is not in the map.  No path is there twice. *)
Theorem getResults_last_write_wins (cache : JsMap string ConversionResult) :
  (forall path,
      jsmap_get path (getResults cache)
      = last_entry path (jsmap_values cache ≫= emitted_entries)) /\
  NoDup (jsmap_keys (getResults cache)).
Proof.
  unfold getResults. rewrite fold_getResults_step. split.
  - intros path. unfold set_all, last_entry.
    rewrite (jsmap_get_fold_set fst snd).
    by destruct (last _).
  - apply set_all_keys_NoDup. constructor.
Qed.

Lemma store_keyed (cache : JsMap string ConversionResult) (r : ConversionResult) :
  keyed_by_original_url cache -> keyed_by_original_url (store cache r).
Proof.
  intros [Hnodup Hkeys]. split; [by apply jsmap_keys_set_NoDup|].
  unfold store. clear Hnodup.
  induction cache as [|[k v] cache IH]; simpl.
  - by repeat constructor.
  - apply Forall_cons in Hkeys as [Hk Hrest].
    case_decide; constructor; auto.
Qed.

Lemma store_all_keyed (records : list ConversionResult)
    (cache : JsMap string ConversionResult) :
  keyed_by_original_url cache ->
  keyed_by_original_url (fold_left store records cache).
Proof.
  revert cache. induction records as [|r l IH]; intros cache Hcache; [done|].
  apply IH. by apply store_keyed.
Qed.

Section ConverterInvariants.
Context `{Collaborators}.

Lemma convertDocument_keyed (document : Document) (this : ProjectConverter) :
  keyed_by_original_url (results this) ->
  keyed_by_original_url (results (convertDocument document this).2).
Proof.
  intros Hcache. rewrite convertDocument_eq.
  destruct (scanned_file _ _); simpl; [|done].
  by apply store_all_keyed.
Qed.

Lemma convertDocument_keys_mono (document : Document) (this : ProjectConverter)
    (k : string) :
  k ∈ jsmap_keys (results this) ->
  k ∈ jsmap_keys (results (convertDocument document this).2).
Proof.
  intros Hk. rewrite convertDocument_eq.
  destruct (scanned_file _ _); simpl; [|done].
  by apply store_all_keys_mono.
Qed.

Lemma convertDocuments_keyed (documents : list Document) (this : ProjectConverter) :
  keyed_by_original_url (results this) ->
  keyed_by_original_url (results (convertDocuments documents this).2).
Proof.
  revert this. induction documents as [|d l IH]; intros this Hcache; [done|].
  simpl. pose proof (convertDocument_keyed d this Hcache) as Hd.
  destruct (convertDocument d this) as [[|message] this']; [|done].
  by apply IH.
Qed.

Lemma convertDocuments_keys_mono (documents : list Document)
    (this : ProjectConverter) (k : string) :
  k ∈ jsmap_keys (results this) ->
  k ∈ jsmap_keys (results (convertDocuments documents this).2).
Proof.
  revert this. induction documents as [|d l IH]; intros this Hk; [done|].
  simpl. pose proof (convertDocument_keys_mono d this k Hk) as Hd.
  destruct (convertDocument d this) as [[|message] this']; [|done].
  by apply IH.
Qed.

(** X15.  The cache of the converter stays keyed by original URL: if every
    entry stands under the original URL of its record and no URL has two
    entries, this is so after [convertDocument] and after [convertPackage],
    whether they return or throw; and every URL that had an entry still has
    one. *)
Theorem cache_stays_keyed_by_original_url (this : ProjectConverter) :
  keyed_by_original_url (results this) ->
  (forall document,
      keyed_by_original_url (results (convertDocument document this).2) /\
      forall url, url ∈ jsmap_keys (results this) ->
        url ∈ jsmap_keys (results (convertDocument document this).2)) /\
  (forall matchPackageName,
      keyed_by_original_url (results (convertPackage matchPackageName this).2) /\
      forall url, url ∈ jsmap_keys (results this) ->
        url ∈ jsmap_keys (results (convertPackage matchPackageName this).2)).
Proof.
  intros Hcache. split.
  - intros document. split; [by apply convertDocument_keyed|].
    intros url. apply convertDocument_keys_mono.
  - intros name. unfold convertPackage. split.
    + by apply convertDocuments_keyed.
    + intros url Hurl. by apply convertDocuments_keys_mono.
Qed.

(** X16.  After a call of [convertDocument] that returns, the cache has,
    for a URL, the last of the records of the document that has this
    original URL, and what it had before the call for a URL that none of the
    records has. *)
Theorem convertDocument_caches_last_record (document : Document)
    (this this' : ProjectConverter) :
  convertDocument document this = (Returns, this') ->
  scanner this' = scanDocument (scanner this) document /\
  forall url,
    jsmap_get url (results this')
    = match last_record url (stored_records document (scanner this')) with
      | Some r => Some r
      | None => jsmap_get url (results this)
      end.
Proof.
  rewrite convertDocument_eq.
  destruct (scanned_file _ _) eqn:Hfile; [|done].
  intros [= <-]. simpl. split; [done|]. intros url.
  unfold last_record.
  by rewrite <- (jsmap_get_fold_set originalUrl (fun r => r)).
Qed.

End ConverterInvariants.

Lemma cache_stays_keyed_by_original_url_witness :
  keyed_by_original_url
    (results (convertPackage "app" Sample.fresh_converter).2) /\
  keyed_by_original_url
    (results (convertDocument Sample.page_b
                (convertPackage "app" Sample.fresh_converter).2).2).
Proof.
  assert (Hfresh : keyed_by_original_url (results Sample.fresh_converter))
    by (split; constructor).
  destruct (@cache_stays_keyed_by_original_url Sample.collaborators
              Sample.fresh_converter Hfresh) as [_ Hpackage].
  destruct (Hpackage "app") as [Hkeyed _].
  split; [exact Hkeyed|].
  destruct (@cache_stays_keyed_by_original_url Sample.collaborators
              (@convertPackage Sample.collaborators
                 "app" Sample.fresh_converter).2 Hkeyed)
    as [Hdocument _].
  exact (proj1 (Hdocument Sample.page_b)).
Defined.

Lemma convertDocument_caches_last_record_witness :
  jsmap_get "a.html"
    (results (convertDocument Sample.page_a Sample.fresh_converter).2)
  = Some (Sample.as_module Sample.page_a []) /\
  jsmap_get "b.html"
    (results (convertDocument Sample.page_a Sample.fresh_converter).2)
  = None.
Proof.
  destruct (@convertDocument_caches_last_record Sample.collaborators
              Sample.page_a Sample.fresh_converter
              (@convertDocument Sample.collaborators
                 Sample.page_a Sample.fresh_converter).2
              eq_refl) as [_ Hget].
  split; [exact (Hget "a.html")|exact (Hget "b.html")].
Defined.
